(** * marimo: the user-configuration endpoint and the reactive scheduler

    [ConfigEndpoint] embeds [save_user_config]
    (marimo/_server/api/endpoints/config.py).  The handler is a short
    effectful program: it parses the request, persists the configuration,
    possibly starts the copilot language server and finally hands the kernel
    a [SetUserConfigRequest].  Its collaborators (the request parser, the
    configuration manager, the session manager) live in other files; they
    are taken as parameters and every call to them is recorded, in order,
    in the world the handler runs in.

    [Reactive] is the dataflow scheduler that request is addressed to, as
    the specification describes it.

    [ExportTests] embeds the loops with which the export tests
    (tests/_cli/test_cli_export.py) wait for a line of the exporter's
    output.

    The definitions come first; the facts about them follow. *)

From stdpp Require Import base gmap list strings sorting relations.

Module ConfigEndpoint.

(** ** Python values held by a configuration *)

(** A [MarimoConfig] is a (nested) dict at run time. *)
#[warnings="-register-all"]
Inductive PyVal :=
  | PyNone
  | PyBool (b : bool)
  | PyInt (n : Z)
  | PyStr (s : string)
  | PyDict (items : list (string * PyVal)).

(** [bool(v)]: what an [if v:] tests. *)
Definition truthy (v : PyVal) : bool :=
  match v with
  | PyNone => false
  | PyBool b => b
  | PyInt n => negb (n =? 0)%Z
  | PyStr s => negb (String.eqb s EmptyString)
  | PyDict items => match items with [] => false | _ :: _ => true end
  end.

Inductive Exn :=
  | HTTPException (status_code : nat)
  | KeyError (key : string)
  | TypeError
  | Failure (what : string).

Inductive Result (A : Type) :=
  | Ok (a : A)
  | Raise (e : Exn).
Arguments Ok {A} a.
Arguments Raise {A} e.

Fixpoint dict_get (items : list (string * PyVal)) (k : string) : option PyVal :=
  match items with
  | [] => None
  | (k', v) :: rest => if String.eqb k' k then Some v else dict_get rest k
  end.

(** [v[k]] for a string key [k]. *)
Definition getitem (v : PyVal) (k : string) : Result PyVal :=
  match v with
  | PyDict items =>
      match dict_get items k with
      | Some x => Ok x
      | None => Raise (KeyError k)
      end
  | _ => Raise TypeError
  end.

(** [config["completion"]["copilot"]]. *)
Definition copilot_toggle (cfg : PyVal) : Result PyVal :=
  match getitem cfg "completion" with
  | Ok completion => getitem completion "copilot"
  | Raise e => Raise e
  end.
Arguments copilot_toggle : simpl never.

(** ** Requests, responses and the control queue *)

Definition SessionId := string.

Inductive ControlRequest :=
  | SetUserConfigRequest (config : PyVal)
  | ExecutionRequest (cell_id : string) (code : string)
  | StopRequest.

Record SaveUserConfigurationRequest := { config : PyVal }.

Inductive BaseResponse :=
  | SuccessResponse.

Record Request := {
  auth_scopes : list string;
  session_header : option SessionId;
  payload : string
}.

(** Every call the handler makes to a collaborator. *)
Inductive Effect :=
  | SaveConfig (c : PyVal)
  | LogDebug (msg : string)
  | StartLspServer
  | PutControlRequest (s : SessionId) (r : ControlRequest).

Record World {Store Lsp : Type} := {
  config_manager : Store;
  lsp_server : Lsp;
  sessions : gmap SessionId (list ControlRequest);
  effects : list Effect
}.
Arguments World : clear implicits.

Section Handler.
Context {Store Lsp : Type}.

(** [parse_request(request, cls=SaveUserConfigurationRequest)]. *)
Variable parse_request : string -> Result SaveUserConfigurationRequest.
(** [config_manager.save_config]: writes the configuration and returns
    the configuration now in force, or raises. *)
Variable save_config_impl : PyVal -> Store -> Result (PyVal * Store).
(** [session_manager.start_lsp_server]. *)
Variable start_lsp_impl : Lsp -> Result Lsp.
(** What [require_current_session] raises without a live session. *)
Variable no_session : Exn.

Abbreviation W := (World Store Lsp).

(** State that survives an exception, plus a result or an exception. *)
Definition M (A : Type) : Type := W -> Result A * W.

Definition ret {A} (a : A) : M A := fun w => (Ok a, w).
Definition raise {A} (e : Exn) : M A := fun w => (Raise e, w).
Definition lift {A} (r : Result A) : M A := fun w => (r, w).
Definition bind {A B} (m : M A) (k : A -> M B) : M B :=
  fun w =>
    match m w with
    | (Ok a, w') => k a w'
    | (Raise e, w') => (Raise e, w')
    end.

Notation "'let*' x ':=' m 'in' k" := (bind m (fun x => k))
  (at level 10, x name, m at level 100, k at level 200).
Notation "'do' m 'then' k" := (bind m (fun _ => k))
  (at level 10, m at level 100, k at level 200).

Definition emit (e : Effect) : M unit :=
  fun w =>
    (Ok tt,
     {| config_manager := config_manager w; lsp_server := lsp_server w;
        sessions := sessions w; effects := effects w ++ [e] |}).

(** [@requires(scope)] of starlette: 403 unless the request is
    authenticated with the scope. *)
Definition requires (scope : string) (request : Request) : M unit :=
  if bool_decide (scope ∈ auth_scopes request) then ret tt
  else raise (HTTPException 403).

Definition save_config (c : PyVal) : M PyVal :=
  do emit (SaveConfig c) then fun w =>
    match save_config_impl c (config_manager w) with
    | Ok (c', st) =>
        (Ok c',
         {| config_manager := st; lsp_server := lsp_server w;
            sessions := sessions w; effects := effects w |})
    | Raise e => (Raise e, w)
    end.

Definition debug (msg : string) : M unit := emit (LogDebug msg).

Definition start_lsp_server : M unit :=
  do emit StartLspServer then fun w =>
    match start_lsp_impl (lsp_server w) with
    | Ok l =>
        (Ok tt,
         {| config_manager := config_manager w; lsp_server := l;
            sessions := sessions w; effects := effects w |})
    | Raise e => (Raise e, w)
    end.

(** Modelled from the spec: [app_state.require_current_session()], whose
    code is in another file: the session the request names, which must be
    live. *)
Definition require_current_session (request : Request) : M SessionId :=
  fun w =>
    match session_header request with
    | Some sid =>
        match sessions w !! sid with
        | Some _ => (Ok sid, w)
        | None => (Raise no_session, w)
        end
    | None => (Raise no_session, w)
    end.

(** Modelled from the spec: [session.put_control_request(r)], whose code
    is in another file: the request joins the end of the session's Control
    Request Queue, which hands requests on in submission order. *)
Definition put_control_request (sid : SessionId) (r : ControlRequest) : M unit :=
  do emit (PutControlRequest sid r) then fun w =>
    (Ok tt,
     {| config_manager := config_manager w; lsp_server := lsp_server w;
        sessions := alter (fun q => q ++ [r]) sid (sessions w);
        effects := effects w |}).

(** The handler, statement by statement. *)
Definition save_user_config (request : Request) : M BaseResponse :=
  do requires "edit" request then
  let* body := lift (parse_request (payload request)) in
  let* cfg := save_config (config body) in
  let* copilot := lift (copilot_toggle cfg) in
  do (if truthy copilot
      then do debug "Starting copilot server" then start_lsp_server
      else ret tt) then
  let* session := require_current_session request in
  do put_control_request session (SetUserConfigRequest (config body)) then
  ret SuccessResponse.

(** The calls of a run that reaches the end, in order. *)
Definition success_trace (body : SaveUserConfigurationRequest)
    (copilot : PyVal) (sid : SessionId) : list Effect :=
  SaveConfig (config body)
  :: (if truthy copilot
      then [LogDebug "Starting copilot server"; StartLspServer]
      else [])
  ++ [PutControlRequest sid (SetUserConfigRequest (config body))].

(** What one run of the handler adds to the record of calls. *)
Definition new_effects (request : Request) (w : W) : list Effect :=
  drop (length (effects w)) (effects (save_user_config request w).2).

End Handler.

(** ** A concrete host, for running the handler *)

(** A configuration manager that overlays the request on what it holds,
    key by key, and refuses to write when the file is read-only. *)
Fixpoint dict_set (items : list (string * PyVal)) (k : string) (v : PyVal)
  : list (string * PyVal) :=
  match items with
  | [] => [(k, v)]
  | (k', v') :: rest =>
      if String.eqb k' k then (k', v) :: rest else (k', v') :: dict_set rest k v
  end.

Fixpoint merge_config (base req : PyVal) {struct req} : PyVal :=
  match req, base with
  | PyDict ritems, PyDict bitems =>
      PyDict
        ((fix go (rs : list (string * PyVal)) (acc : list (string * PyVal)) :=
            match rs with
            | [] => acc
            | (k, v) :: rest =>
                go rest
                   (dict_set acc k
                      (match dict_get acc k with
                       | Some b => merge_config b v
                       | None => v
                       end))
            end) ritems bitems)
  | _, _ => req
  end.

Record ConfigFile := { on_disk : PyVal; writable : bool }.

Definition file_save_config (c : PyVal) (f : ConfigFile)
  : Result (PyVal * ConfigFile) :=
  if writable f
  then let c' := merge_config (on_disk f) c in
       Ok (c', {| on_disk := c'; writable := true |})
  else Raise (Failure "config file is read-only").

(** The language server is either running or not. *)
Definition lsp_start (running : bool) : Result bool := Ok true.

Definition completion_config (copilot : bool) : PyVal :=
  PyDict [("completion",
           PyDict [("activate_on_typing", PyBool true);
                   ("copilot", PyBool copilot)])].

Definition theme_config : PyVal :=
  PyDict [("display", PyDict [("theme", PyStr "dark")])].

Definition json_body (text : string) : Result SaveUserConfigurationRequest :=
  if String.eqb text "copilot on" then Ok {| config := completion_config true |}
  else if String.eqb text "copilot off" then Ok {| config := completion_config false |}
  else if String.eqb text "dark theme" then Ok {| config := theme_config |}
  else Raise (Failure "invalid request body").

Definition run_on_host (request : Request) (w : World ConfigFile bool)
  : Result BaseResponse * World ConfigFile bool :=
  save_user_config json_body file_save_config lsp_start (HTTPException 404)
    request w.

Definition editor_request (text : string) : Request :=
  {| auth_scopes := ["read"; "edit"]; session_header := Some "s1";
     payload := text |}.

Definition host_world (cfg : PyVal) (can_write running : bool)
  : World ConfigFile bool :=
  {| config_manager := {| on_disk := cfg; writable := can_write |};
     lsp_server := running;
     sessions := {[ "s1" := [ExecutionRequest "c1" "x = 1"] ]};
     effects := [] |}.

(** Three runs on that host: copilot switched off while the server runs;
    a request that only sets the theme while the stored configuration has
    copilot on; and a save onto a read-only file. *)
Definition switch_off_run : Result BaseResponse * World ConfigFile bool :=
  run_on_host (editor_request "copilot off")
    (host_world (completion_config true) true true).

Definition theme_run : Result BaseResponse * World ConfigFile bool :=
  run_on_host (editor_request "dark theme")
    (host_world (completion_config true) true false).

Definition read_only_run : Result BaseResponse * World ConfigFile bool :=
  run_on_host (editor_request "copilot on")
    (host_world (completion_config false) false false).

End ConfigEndpoint.

(** * The reactive scheduler

    The dependency graph and the scheduler are not among the files at hand
    (the endpoint, a notebook of lazy tabs and the export tests); the
    module below follows the specification's sections 3 and 4: units with
    statically extracted definitions and references, edges derived from
    them, structural errors, and [apply_edit] step by step.  The static
    analyzer and the execution of a unit's body are parameters. *)

Module Reactive.

Definition UnitId := nat.
Definition Name := string.

(** Modelled from the spec: a unit's execution status (section 3). *)
Inductive Status := idle | queued | running | stale | error | disabled.

(** Modelled from the spec: the error taxonomy of section 7; a
    [MultipleDefinitionError] is tagged with the conflicting unit ids. *)
Inductive Error :=
  | SyntaxError
  | MultipleDefinitionError (ids : list UnitId)
  | CycleError
  | RuntimeError
  | UnresolvedReferenceError.

#[global] Instance Status_eq_dec : EqDecision Status.
Proof. solve_decision. Defined.
#[global] Instance Error_eq_dec : EqDecision Error.
Proof. solve_decision. Defined.

(** Modelled from the spec: a Unit (section 3) under its stable
    identifier: original position, current source text, defined names in
    order, referenced free names, status, last output, last error. *)
Record Unit {Source Value : Type} := {
  position : nat;
  source : Source;
  defined : list Name;
  referenced : list Name;
  status : Status;
  output : option Value;
  last_error : option Error
}.
Arguments Unit : clear implicits.

(** Modelled from the spec: an event of the status subscription,
    (unit, status, error). *)
Definition Event : Type := UnitId * Status * option Error.

(** Modelled from the spec: the units with their status table, the Runtime
    Environment (name to bound value), and what the scheduler has reported
    while handling edits. *)
Record Notebook {Source Value : Type} := {
  units : gmap UnitId (Unit Source Value);
  env : gmap Name Value;
  events : list Event
}.
Arguments Notebook : clear implicits.

Definition status_of {Source Value} (nb : Notebook Source Value) (id : UnitId)
  : option Status := status <$> (units nb !! id).
Definition error_of {Source Value} (nb : Notebook Source Value) (id : UnitId)
  : option (option Error) := last_error <$> (units nb !! id).
Definition output_of {Source Value} (nb : Notebook Source Value) (id : UnitId)
  : option (option Value) := output <$> (units nb !! id).

(** What a notebook reported since an earlier state of it. *)
Definition new_events {Source Value} (before after : Notebook Source Value)
  : list Event := drop (length (events before)) (events after).

(** The units a report shows starting, in order. *)
Definition started (evs : list Event) : list UnitId :=
  (fun e => e.1.1) <$> filter (fun e => e.1.2 = running) evs.

Section Graph.
Context {Source Value : Type}.
Implicit Types (us : gmap UnitId (Unit Source Value)) (u : Unit Source Value).

(** Modelled from the spec: a Dependency Edge (section 3): unit [u]
    references a name the definer currently defines. *)
Definition references_def u (definer : Unit Source Value) : Prop :=
  Exists (fun n => n ∈ defined definer) (referenced u).

#[global] Instance references_def_dec u d : Decision (references_def u d).
Proof. unfold references_def. apply _. Defined.

(** The units one edge downstream of [b]. *)
Definition children us (b : UnitId) : gset UnitId :=
  match us !! b with
  | Some ub => dom (filter (fun kv => references_def kv.2 ub) us)
  | None => ∅
  end.

Definition grow us (S : gset UnitId) : gset UnitId :=
  S ∪ set_bind (children us) S.

(** Modelled from the spec: [descendants(unit_id)], all units transitively
    reachable over dependency edges; as many rounds of [grow] as there are
    units saturate the set. *)
Definition descendants us (b : UnitId) : gset UnitId :=
  Nat.iter (size us) (grow us) (children us b).

(** The edge relation: [b] feeds [c]. *)
Definition edge us : relation UnitId := fun b c => c ∈ children us b.

(** Two unit tables with the same definitions and references. *)
Definition same_graph us (us' : gmap UnitId (Unit Source Value)) : Prop :=
  forall id,
    match us !! id, us' !! id with
    | Some u, Some u' => defined u = defined u' /\ referenced u = referenced u'
    | None, None => True
    | _, _ => False
    end.

(** *** Structural errors *)

Definition with_status u (s : Status) (e : option Error) : Unit Source Value :=
  {| position := position u; source := source u; defined := defined u;
     referenced := referenced u; status := s; output := output u;
     last_error := e |}.

Definition with_analysis u (src : Source) (defs refs : list Name)
  : Unit Source Value :=
  {| position := position u; source := src; defined := defs;
     referenced := refs; status := status u; output := output u;
     last_error := last_error u |}.

Definition with_result u (v : Value) : Unit Source Value :=
  {| position := position u; source := source u; defined := defined u;
     referenced := referenced u; status := idle; output := Some v;
     last_error := None |}.

Definition shares_definition u (v : Unit Source Value) : Prop :=
  Exists (fun n => n ∈ defined v) (defined u).

(** The other non-disabled units that define a name of unit [c]. *)
Definition rivals us (c : UnitId) : gset UnitId :=
  match us !! c with
  | Some uc =>
      dom (filter
             (fun kv => kv.1 ≠ c /\ status kv.2 ≠ disabled /\
                        shares_definition uc kv.2)
             us)
  | None => ∅
  end.

(** The non-disabled units that define a name some other non-disabled
    unit defines too. *)
Definition conflicting us : gset UnitId :=
  dom (filter (fun kv => status kv.2 ≠ disabled /\ rivals us kv.1 ≠ ∅) us).

(** The conflicting definers a unit is, or is downstream of, with their
    rivals. *)
Definition conflict_tag us (id : UnitId) : list UnitId :=
  let roots :=
    filter (fun c => c = id \/ id ∈ descendants us c) (conflicting us) in
  elements (roots ∪ set_bind (rivals us) roots).

Definition is_multiple_definition (e : option Error) : bool :=
  match e with Some (MultipleDefinitionError _) => true | _ => false end.

(** Modelled from the spec: the marking half of [upsert] (section 4.2):
    when a name is defined by two non-disabled units, both and every unit
    downstream of either enter [error] with a [MultipleDefinitionError];
    a unit whose conflict has gone is released. *)
Definition mark_conflicts us : gmap UnitId (Unit Source Value) :=
  map_imap
    (fun id u =>
       Some match conflict_tag us id with
            | [] => if is_multiple_definition (last_error u)
                    then with_status u stale None else u
            | tag => with_status u error (Some (MultipleDefinitionError tag))
            end)
    us.

(** Modelled from the spec: [upsert(unit_id, defined, referenced)]
    replaces the unit's sets (the edges, being derived, follow) and marks
    the conflicts. *)
Definition upsert us (id : UnitId) (defs refs : list Name)
  : gmap UnitId (Unit Source Value) :=
  mark_conflicts
    (alter (fun u => with_analysis u (source u) defs refs) id us).

(** Modelled from the spec: [cycle_check()] marks every unit on a cycle,
    that is every unit among its own descendants, [error] with
    [CycleError], and releases a unit whose cycle is broken. *)
Definition cycle_check us : gmap UnitId (Unit Source Value) :=
  map_imap
    (fun id u =>
       Some (if decide (id ∈ descendants us id)
             then with_status u error (Some CycleError)
             else if decide (last_error u = Some CycleError)
                  then with_status u stale None else u))
    us.

(** Modelled from the spec: step 2 of [apply_edit] for a unit [u] whose
    new source analysed: the new text, [upsert], then [cycle_check]. *)
Definition replan us (id : UnitId) u (src : Source) (defs refs : list Name)
  : gmap UnitId (Unit Source Value) :=
  cycle_check
    (upsert (<[id := with_analysis u src (defined u) (referenced u)]> us)
       id defs refs).

(** *** The affected set and its order *)

(** A structural error state: [error] for a cycle or a conflict. *)
Definition structural_error u : bool :=
  match status u, last_error u with
  | error, Some CycleError => true
  | error, Some (MultipleDefinitionError _) => true
  | _, _ => false
  end.

Definition schedulable us (id : UnitId) : bool :=
  match us !! id with
  | Some u => negb (structural_error u) && negb (bool_decide (status u = disabled))
  | None => false
  end.

(** Modelled from the spec: step 3 of [apply_edit], the affected set: the
    unit and its descendants, restricted to units that are neither in a
    structural error state nor disabled. *)
Definition affected us (id : UnitId) : list UnitId :=
  filter (fun a => schedulable us a = true)
         (elements ({[id]} ∪ descendants us id)).

Definition position_of us (id : UnitId) : nat :=
  match us !! id with Some u => position u | None => 0 end.

(** The tie-break of section 4.2: ascending original position. *)
Definition by_position us : relation UnitId :=
  fun a b => position_of us a <= position_of us b.

#[global] Instance by_position_dec us a b : Decision (by_position us a b).
Proof. unfold by_position. apply _. Defined.

(** A unit is ready when none of the units still to run is upstream of it. *)
Definition ready us (remaining : list UnitId) (r : UnitId) : Prop :=
  Forall (fun v => r ∉ descendants us v) remaining.

#[global] Instance ready_dec us remaining r : Decision (ready us remaining r).
Proof. unfold ready. apply _. Defined.

(** Modelled from the spec: step 4 of [apply_edit], the topological order
    tier by tier: a tier is made of the units that are ready, sorted by
    position; the rest is tiered in turn. *)
Fixpoint tiers us (fuel : nat) (remaining : list UnitId) : list (list UnitId) :=
  match fuel with
  | 0 => []
  | S fuel' =>
      match filter (ready us remaining) remaining with
      | [] => []
      | tier =>
          merge_sort (by_position us) tier
          :: tiers us fuel' (filter (fun v => ¬ ready us remaining v) remaining)
      end
  end.

Definition schedule us (remaining : list UnitId) : list UnitId :=
  concat (tiers us (length remaining) remaining).

End Graph.

(** *** Execution *)

Section Scheduler.
Context {Source Value : Type}.
(** The Static Analyzer (section 4.1): defined and referenced names of a
    source, or nothing when it cannot be parsed ([SyntaxError]). *)
Variable analyze : Source -> option (list Name * list Name).
(** A unit's body, run on the bindings visible to it: its output value and
    the values of the names it binds, or nothing when it raises. *)
Variable execute : Source -> gmap Name Value -> option (Value * gmap Name Value).
Implicit Types (us : gmap UnitId (Unit Source Value)) (u : Unit Source Value)
  (nb : Notebook Source Value).

(** Modelled from the spec: the publish step, the new values of the unit's
    defined names enter the Runtime Environment. *)
Definition publish (defs : list Name) (ns e : gmap Name Value)
  : gmap Name Value :=
  foldr (fun n acc => match ns !! n with Some v => <[n := v]> acc | None => acc end)
        e defs.

(** Every unit of [D] transitions to [stale]. *)
Definition mark_stale us (D : gset UnitId) : gmap UnitId (Unit Source Value) :=
  map_imap
    (fun id u => Some (if decide (id ∈ D) then with_status u stale (last_error u) else u))
    us.

(** Modelled from the spec: one unit of step 5 of [apply_edit], on the
    graph the pass was planned on.  The unit is marked [running] with its
    prior error cleared and reads the current Runtime Environment; on
    completion its values are published and it is [idle]; on a raised fault
    it is [error] with [RuntimeError] and every strict descendant
    transitions to [stale].  Returns the units so put out of the pass. *)
Definition run_unit (graph : gmap UnitId (Unit Source Value)) nb (id : UnitId)
  : Notebook Source Value * gset UnitId :=
  match units nb !! id with
  | None => (nb, ∅)
  | Some u =>
      match execute (source u) (env nb) with
      | Some (v, ns) =>
          ({| units := <[id := with_result u v]> (units nb);
              env := publish (defined u) ns (env nb);
              events := events nb ++ [(id, running, None); (id, idle, None)] |},
           ∅)
      | None =>
          let D := descendants graph id ∖ {[id]} in
          ({| units :=
                mark_stale
                  (<[id := with_status u error (Some RuntimeError)]> (units nb)) D;
              env := env nb;
              events :=
                events nb
                ++ [(id, running, None); (id, error, Some RuntimeError)]
                ++ ((fun d => (d, stale, None)) <$> elements D) |},
           D)
      end
  end.

(** What [run_unit] reports. *)
Definition unit_events (graph : gmap UnitId (Unit Source Value)) nb (id : UnitId)
  : list Event :=
  match units nb !! id with
  | None => []
  | Some u =>
      match execute (source u) (env nb) with
      | Some _ => [(id, running, None); (id, idle, None)]
      | None =>
          [(id, running, None); (id, error, Some RuntimeError)]
          ++ ((fun d => (d, stale, None))
                <$> elements (descendants graph id ∖ {[id]}))
      end
  end.

(** Modelled from the spec: step 5 of [apply_edit], the units of the plan
    one after the other, those put out of the pass skipped. *)
Fixpoint execute_all (graph : gmap UnitId (Unit Source Value))
    (order : list UnitId) (skipped : gset UnitId) nb : Notebook Source Value :=
  match order with
  | [] => nb
  | id :: rest =>
      if decide (id ∈ skipped) then execute_all graph rest skipped nb
      else
        let '(nb', D) := run_unit graph nb id in
        execute_all graph rest (skipped ∪ D) nb'
  end.

(** What a pass reports, unit by unit. *)
Fixpoint pass_events (graph : gmap UnitId (Unit Source Value))
    (order : list UnitId) (skipped : gset UnitId) nb : list Event :=
  match order with
  | [] => []
  | id :: rest =>
      if decide (id ∈ skipped) then pass_events graph rest skipped nb
      else
        let '(nb', D) := run_unit graph nb id in
        unit_events graph nb id ++ pass_events graph rest (skipped ∪ D) nb'
  end.

(** Modelled from the spec: [apply_edit(unit_id, new_source)] (section
    4.3), steps 1 to 5.  An edit of a unit the notebook does not hold is
    not accepted. *)
Definition apply_edit nb (id : UnitId) (new_source : Source)
  : Notebook Source Value :=
  match units nb !! id with
  | None => nb
  | Some u =>
      match analyze new_source with
      | None =>
          {| units := <[id := with_status u error (Some SyntaxError)]> (units nb);
             env := env nb;
             events := events nb ++ [(id, error, Some SyntaxError)] |}
      | Some (defs, refs) =>
          let graph := replan (units nb) id u new_source defs refs in
          execute_all graph (schedule graph (affected graph id)) ∅
            {| units := graph; env := env nb; events := events nb |}
      end
  end.

End Scheduler.
(** *** A small cell language, for running the scheduler *)

Inductive Expr :=
  | Const (z : Z)
  | Ref (n : Name)
  | Add (a b : Expr)
  | Div (a b : Expr).

Inductive Cell :=
  | Assign (x : Name) (e : Expr)
  | Unparsable (text : string).

Fixpoint free_names (e : Expr) : list Name :=
  match e with
  | Const _ => []
  | Ref n => [n]
  | Add a b | Div a b => free_names a ++ free_names b
  end.

Definition cell_analyze (c : Cell) : option (list Name * list Name) :=
  match c with
  | Assign x e => Some ([x], free_names e)
  | Unparsable _ => None
  end.

Fixpoint eval (e : Expr) (ns : gmap Name Z) : option Z :=
  match e with
  | Const z => Some z
  | Ref n => ns !! n
  | Add a b =>
      match eval a ns, eval b ns with
      | Some x, Some y => Some (x + y)%Z
      | _, _ => None
      end
  | Div a b =>
      match eval a ns, eval b ns with
      | Some x, Some y => if (y =? 0)%Z then None else Some (x / y)%Z
      | _, _ => None
      end
  end.

Definition cell_execute (c : Cell) (ns : gmap Name Z) : option (Z * gmap Name Z) :=
  match c with
  | Assign x e =>
      match eval e ns with
      | Some v => Some (v, {[x := v]})
      | None => None
      end
  | Unparsable _ => None
  end.

Definition new_unit (pos : nat) (c : Cell) : Unit Cell Z :=
  match cell_analyze c with
  | Some (defs, refs) =>
      {| position := pos; source := c; defined := defs; referenced := refs;
         status := idle; output := None; last_error := None |}
  | None =>
      {| position := pos; source := c; defined := []; referenced := [];
         status := error; output := None; last_error := Some SyntaxError |}
  end.

(** A notebook as loaded: nothing has run. *)
Definition load (cells : list (UnitId * Unit Cell Z)) : Notebook Cell Z :=
  {| units := cycle_check (mark_conflicts (list_to_map cells));
     env := ∅; events := [] |}.

Definition edit := apply_edit cell_analyze cell_execute.

(** Three cells in a row: [x = 1], [y = 10 / x], [z = y + 1]. *)
Definition chain : Notebook Cell Z :=
  load [(10, new_unit 1 (Assign "x" (Const 1)));
        (20, new_unit 2 (Assign "y" (Div (Const 10) (Ref "x"))));
        (30, new_unit 3 (Assign "z" (Add (Ref "y") (Const 1))))].

(** The chain after it has run once, and after [x] is then set to zero. *)
Definition chain_ran : Notebook Cell Z := edit chain 10 (Assign "x" (Const 5)).
Definition chain_zero : Notebook Cell Z := edit chain_ran 10 (Assign "x" (Const 0)).

(** Units at positions 1, 2, 3 (with identifiers 10, 30, 20); the second
    and the third depend on the first only. *)
Definition fan : Notebook Cell Z :=
  load [(10, new_unit 1 (Assign "a" (Const 1)));
        (20, new_unit 3 (Assign "c" (Add (Ref "a") (Const 2))));
        (30, new_unit 2 (Assign "b" (Add (Ref "a") (Const 1))))].

Definition fan_edit (z : Z) (nb : Notebook Cell Z) : Notebook Cell Z :=
  edit nb 10 (Assign "a" (Const z)).

(** Four units; the one at position 1 depends on the one at position 3. *)
Definition staggered : Notebook Cell Z :=
  load [(5, new_unit 0 (Assign "r" (Const 1)));
        (6, new_unit 1 (Assign "p" (Ref "s")));
        (7, new_unit 2 (Assign "q" (Ref "r")));
        (8, new_unit 3 (Assign "s" (Ref "r")))].

End Reactive.
(** * Further runs of the endpoint, and the export tests' waiting loop *)

Module ConfigRuns.
Import ConfigEndpoint.

(** A request with the edit scope whose session is not live. *)
Definition stale_session_request : Request :=
  {| auth_scopes := ["edit"]; session_header := Some "gone";
     payload := "copilot on" |}.

(** A request that may only read. *)
Definition reader_request : Request :=
  {| auth_scopes := ["read"]; session_header := Some "s1";
     payload := "not json" |}.

(** Copilot is switched on by a request whose session has gone. *)
Definition stale_session_run : Result BaseResponse * World ConfigFile bool :=
  run_on_host stale_session_request
    (host_world (completion_config false) true false).

(** Copilot is switched on, then the same request is sent again. *)
Definition first_save_run : Result BaseResponse * World ConfigFile bool :=
  run_on_host (editor_request "copilot on")
    (host_world (completion_config false) true false).

Definition second_save_run : Result BaseResponse * World ConfigFile bool :=
  run_on_host (editor_request "copilot on") first_save_run.2.

(** The theme is set while the stored configuration is empty. *)
Definition bare_store_run : Result BaseResponse * World ConfigFile bool :=
  run_on_host (editor_request "dark theme") (host_world (PyDict []) true false).

End ConfigRuns.

Module ExportTests.

(** ** The loops of tests/_cli/test_cli_export.py that wait for a line

    [[
    while True:
        line = p.stdout.readline().decode()
        if line:
            assert "Re-exporting" in line
            break
    ]]

    A pipe is what the child process writes to it before closing it. *)






End ExportTests.
(** * Facts about the configuration endpoint *)

Section ConfigEndpointFacts.
Import ConfigEndpoint.
Context {Store Lsp : Type}.
Variable parse_request : string -> Result SaveUserConfigurationRequest.
Variable save_config_impl : PyVal -> Store -> Result (PyVal * Store).
Variable start_lsp_impl : Lsp -> Result Lsp.
Variable no_session : Exn.

Abbreviation handler :=
  (save_user_config parse_request save_config_impl start_lsp_impl no_session).
Abbreviation trace :=
  (new_effects parse_request save_config_impl start_lsp_impl no_session).

Ltac run_handler :=
  cbv beta iota zeta delta
    [save_user_config requires save_config require_current_session
     put_control_request start_lsp_server debug emit bind lift ret raise].

Ltac absent_from_trace :=
  rewrite !elem_of_cons, elem_of_nil;
  let H := fresh in
  intros H; repeat (destruct H as [H|H]; try discriminate); done.

Lemma drop_length_app {A} (l k : list A) : drop (length l) (l ++ k) = k.
Proof. by rewrite drop_app_length. Qed.

(** A run that returns did every step of the handler, and nothing else. *)
Lemma save_user_config_returns request (w w' : World Store Lsp) resp :
  handler request w = (Ok resp, w') ->
  exists body cfg copilot sid q,
    "edit" ∈ auth_scopes request /\
    parse_request (payload request) = Ok body /\
    save_config_impl (config body) (config_manager w)
      = Ok (cfg, config_manager w') /\
    copilot_toggle cfg = Ok copilot /\
    session_header request = Some sid /\
    sessions w !! sid = Some q /\
    (if truthy copilot
     then start_lsp_impl (lsp_server w) = Ok (lsp_server w')
     else lsp_server w' = lsp_server w) /\
    sessions w'
      = alter (fun q => q ++ [SetUserConfigRequest (config body)]) sid
          (sessions w) /\
    effects w' = effects w ++ success_trace body copilot sid.
Proof.
  unfold success_trace. run_handler.
  case_bool_decide as Hscope; [|by simpl]. simpl.
  destruct (parse_request (payload request)) as [body|] eqn:Hparse;
    [|by simpl].
  destruct (save_config_impl (config body) (config_manager w))
    as [[cfg st]|] eqn:Hsave; [|by simpl]. simpl.
  destruct (copilot_toggle cfg) as [copilot|] eqn:Hp; [|by simpl].
  destruct (truthy copilot) eqn:Ht; simpl.
  - destruct (start_lsp_impl (lsp_server w)) as [l|] eqn:Hl; [|by simpl].
    simpl. destruct (session_header request) as [sid|] eqn:Hs; [|by simpl].
    destruct (sessions w !! sid) as [q|] eqn:Hq; [|by simpl]. simpl.
    intros [= <-]. exists body, cfg, copilot, sid, q.
    rewrite Ht. simpl. rewrite <- !app_assoc. by repeat split.
  - destruct (session_header request) as [sid|] eqn:Hs; [|by simpl].
    destruct (sessions w !! sid) as [q|] eqn:Hq; [|by simpl]. simpl.
    intros [= <-]. exists body, cfg, copilot, sid, q.
    rewrite Ht. simpl. rewrite <- !app_assoc. by repeat split.
Qed.

(** When persisting raises, the handler stops there. *)
Lemma save_user_config_save_raises request (w : World Store Lsp) body e :
  "edit" ∈ auth_scopes request ->
  parse_request (payload request) = Ok body ->
  save_config_impl (config body) (config_manager w) = Raise e ->
  handler request w
  = (Raise e,
     {| config_manager := config_manager w; lsp_server := lsp_server w;
        sessions := sessions w;
        effects := effects w ++ [SaveConfig (config body)] |}).
Proof.
  intros Hscope Hparse Hsave.
  run_handler.
  rewrite bool_decide_eq_true_2 by done. simpl. rewrite Hparse. simpl.
  by rewrite Hsave.
Qed.

(** Without the scope the handler is never entered. *)
Lemma save_user_config_forbidden request (w : World Store Lsp) :
  "edit" ∉ auth_scopes request ->
  handler request w = (Raise (HTTPException 403), w).
Proof.
  intros Hscope. run_handler.
  by rewrite bool_decide_eq_false_2.
Qed.

Lemma new_effects_returns request (w w' : World Store Lsp) resp k :
  handler request w = (Ok resp, w') ->
  effects w' = effects w ++ k ->
  trace request w = k.
Proof.
  intros Hrun Heff. unfold new_effects. rewrite Hrun. simpl.
  by rewrite Heff, drop_length_app.
Qed.

(** A run that raises never reached [put_control_request]. *)
Lemma raising_run_enqueues_nothing request (w : World Store Lsp) e s c :
  (handler request w).1 = Raise e ->
  PutControlRequest s c ∉ trace request w.
Proof.
  unfold new_effects. run_handler.
  case_bool_decide as Hscope; simpl.
  2:{ intros _. rewrite drop_all. apply not_elem_of_nil. }
  destruct (parse_request (payload request)) as [body|]; simpl.
  2:{ intros _. rewrite drop_all. apply not_elem_of_nil. }
  destruct (save_config_impl (config body) (config_manager w))
    as [[cfg st]|]; simpl.
  2:{ intros _. rewrite drop_length_app. by intros ?%list_elem_of_singleton. }
  destruct (copilot_toggle cfg) as [copilot|]; simpl.
  2:{ intros _. rewrite drop_length_app. by intros ?%list_elem_of_singleton. }
  destruct (truthy copilot); simpl.
  - destruct (start_lsp_impl (lsp_server w)) as [l|]; simpl.
    2:{ intros _. rewrite <- !app_assoc, drop_length_app. simpl.
        absent_from_trace. }
    destruct (session_header request) as [sid|]; simpl.
    2:{ intros _. rewrite <- !app_assoc, drop_length_app. simpl.
        absent_from_trace. }
    destruct (sessions w !! sid); simpl; [done|].
    intros _. rewrite <- !app_assoc, drop_length_app. simpl.
    absent_from_trace.
  - destruct (session_header request) as [sid|]; simpl.
    2:{ intros _. rewrite drop_length_app. by intros ?%list_elem_of_singleton. }
    destruct (sessions w !! sid); simpl; [done|].
    intros _. rewrite drop_length_app. by intros ?%list_elem_of_singleton.
Qed.

Lemma start_in_success_trace body copilot sid :
  StartLspServer ∈ success_trace body copilot sid <-> truthy copilot = true.
Proof.
  unfold success_trace. destruct (truthy copilot); simpl;
    rewrite !elem_of_cons, elem_of_nil; split; intros H;
    repeat (destruct H as [H|H]; try discriminate); try done; auto.
Qed.

Lemma put_in_success_trace body copilot sid s c :
  PutControlRequest s c ∈ success_trace body copilot sid <->
  s = sid /\ c = SetUserConfigRequest (config body).
Proof.
  unfold success_trace. destruct (truthy copilot); simpl;
    rewrite !elem_of_cons, elem_of_nil; split.
  all: try (intros H; repeat (destruct H as [H|H]; try discriminate);
            try done; by injection H as -> ->).
  all: intros [-> ->]; auto.
Qed.

(** C8, as amended.  For every accepted request the handler (the host)
    starts the completion side-service exactly when the copilot toggle of
    the saved configuration is truthy; when the toggle is off it leaves the
    side-service as it was, so a running service keeps running: nothing in
    the handler stops it.  The kernel is told through exactly one
    [SetUserConfigRequest], appended to the control queue of the request's
    session; no other queue changes. *)
Theorem save_user_config_starts_never_stops request (w w' : World Store Lsp) resp :
  handler request w = (Ok resp, w') ->
  exists body cfg copilot sid q,
    parse_request (payload request) = Ok body /\
    save_config_impl (config body) (config_manager w)
      = Ok (cfg, config_manager w') /\
    copilot_toggle cfg = Ok copilot /\
    session_header request = Some sid /\
    sessions w !! sid = Some q /\
    (if truthy copilot
     then start_lsp_impl (lsp_server w) = Ok (lsp_server w')
     else lsp_server w' = lsp_server w) /\
    trace request w = success_trace body copilot sid /\
    sessions w' !! sid = Some (q ++ [SetUserConfigRequest (config body)]) /\
    (forall s, s ≠ sid -> sessions w' !! s = sessions w !! s).
Proof.
  intros Hrun.
  destruct (save_user_config_returns _ _ _ _ Hrun)
    as (body & cfg & copilot & sid & q & _ & Hparse & Hsave & Htoggle
        & Hsid & Hq & Hlsp & Hsessions & Heffects).
  exists body, cfg, copilot, sid, q. repeat split; try done.
  - by apply (new_effects_returns _ _ _ _ _ Hrun).
  - rewrite Hsessions, lookup_alter_eq. by rewrite Hq.
  - intros s Hne. rewrite Hsessions. by apply lookup_alter_ne.
Qed.

(** C9.  When [save_config] raises, the handler raises too; the only call
    it has made is that [save_config] (none at all without the edit scope):
    the side-service is not started, nothing joins any control queue, and
    the world is otherwise as before.  Conversely a control request is
    enqueued only in a run whose [save_config] call came first and
    succeeded. *)
Theorem save_failure_reaches_neither_lsp_nor_kernel request (w : World Store Lsp) :
  (forall body e,
     parse_request (payload request) = Ok body ->
     save_config_impl (config body) (config_manager w) = Raise e ->
     (exists e', (handler request w).1 = Raise e') /\
     trace request w
       = (if bool_decide ("edit" ∈ auth_scopes request)
          then [SaveConfig (config body)] else []) /\
     sessions (handler request w).2 = sessions w /\
     lsp_server (handler request w).2 = lsp_server w /\
     config_manager (handler request w).2 = config_manager w)
  /\
  (forall s c,
     PutControlRequest s c ∈ trace request w ->
     exists body cfg st rest,
       parse_request (payload request) = Ok body /\
       save_config_impl (config body) (config_manager w) = Ok (cfg, st) /\
       c = SetUserConfigRequest (config body) /\
       trace request w
         = SaveConfig (config body) :: rest ++ [PutControlRequest s c]).
Proof.
  split.
  - intros body e Hparse Hsave.
    destruct (decide ("edit" ∈ auth_scopes request)) as [Hscope|Hscope].
    + rewrite bool_decide_eq_true_2 by done. unfold new_effects.
      rewrite (save_user_config_save_raises _ _ _ _ Hscope Hparse Hsave).
      simpl. rewrite drop_length_app. eauto 10.
    + rewrite bool_decide_eq_false_2 by done. unfold new_effects.
      rewrite (save_user_config_forbidden _ _ Hscope).
      simpl. rewrite drop_all. eauto 10.
  - intros s c Hin.
    destruct (handler request w) as [[resp|e] w'] eqn:Hrun.
    2:{ exfalso. eapply raising_run_enqueues_nothing; [|exact Hin].
        by rewrite Hrun. }
    destruct (save_user_config_returns _ _ _ _ Hrun)
      as (body & cfg & copilot & sid & q & _ & Hparse & Hsave & Htoggle
          & Hsid & Hq & Hlsp & Hsessions & Heffects).
    rewrite (new_effects_returns _ _ _ _ _ Hrun Heffects) in Hin |- *.
    apply put_in_success_trace in Hin as [-> ->].
    exists body, cfg, (config_manager w'),
      (if truthy copilot
       then [LogDebug "Starting copilot server"; StartLspServer] else []).
    by repeat split.
Qed.

End ConfigEndpointFacts.

Section ConfigEndpointRuns.
Import ConfigEndpoint.

(** C10.  In every run that returns, the request enqueued for the kernel
    carries the configuration of the request body, while the side-service
    is started according to the copilot toggle of the configuration that
    [save_config] returned.  The two can differ: on a host whose
    configuration manager overlays the request on what it holds, a request
    that only sets the theme makes the server start copilot (the stored
    toggle is on) while the kernel is sent a configuration with no
    completion entry at all. *)
Theorem kernel_is_sent_the_request_config :
  (forall (Store Lsp : Type) parse save start no_session request
          (w w' : World Store Lsp) resp,
      save_user_config parse save start no_session request w = (Ok resp, w') ->
      exists body cfg copilot sid q,
        parse (payload request) = Ok body /\
        save (config body) (config_manager w) = Ok (cfg, config_manager w') /\
        copilot_toggle cfg = Ok copilot /\
        session_header request = Some sid /\
        sessions w !! sid = Some q /\
        sessions w' !! sid = Some (q ++ [SetUserConfigRequest (config body)]) /\
        (StartLspServer ∈ new_effects parse save start no_session request w
         <-> truthy copilot = true))
  /\
  (theme_run.1 = Ok SuccessResponse /\
   sessions theme_run.2 !! "s1"
     = Some [ExecutionRequest "c1" "x = 1"; SetUserConfigRequest theme_config] /\
   copilot_toggle theme_config = Raise (KeyError "completion") /\
   copilot_toggle (on_disk (config_manager theme_run.2)) = Ok (PyBool true) /\
   effects theme_run.2
     = [SaveConfig theme_config; LogDebug "Starting copilot server";
        StartLspServer;
        PutControlRequest "s1" (SetUserConfigRequest theme_config)]).
Proof.
  split.
  - intros Store Lsp parse save start no_session request w w' resp Hrun.
    destruct (save_user_config_returns _ _ _ _ _ _ _ _ Hrun)
      as (body & cfg & copilot & sid & q & _ & Hparse & Hsave & Htoggle
          & Hsid & Hq & _ & Hsessions & Heffects).
    exists body, cfg, copilot, sid, q. repeat split; try done.
    + rewrite Hsessions, lookup_alter_eq. by rewrite Hq.
    + rewrite (new_effects_returns _ _ _ _ _ _ _ _ _ Hrun Heffects).
      apply start_in_success_trace.
    + rewrite (new_effects_returns _ _ _ _ _ _ _ _ _ Hrun Heffects).
      apply start_in_success_trace.
  - by vm_compute.
Qed.

(** The amended C8 at work: the theme-only request is accepted, copilot
    is started from the stored toggle, one request reaches the kernel. *)
Lemma save_user_config_starts_never_stops_witness :
  theme_run = (Ok SuccessResponse, theme_run.2) /\
  exists body cfg copilot sid q,
    json_body "dark theme" = Ok body /\
    file_save_config (config body)
        (config_manager (host_world (completion_config true) true false))
      = Ok (cfg, config_manager theme_run.2) /\
    copilot_toggle cfg = Ok copilot /\
    session_header (editor_request "dark theme") = Some sid /\
    sessions (host_world (completion_config true) true false) !! sid = Some q /\
    (if truthy copilot
     then lsp_start false = Ok (lsp_server theme_run.2)
     else lsp_server theme_run.2 = false) /\
    new_effects json_body file_save_config lsp_start (HTTPException 404)
        (editor_request "dark theme")
        (host_world (completion_config true) true false)
      = success_trace body copilot sid /\
    sessions theme_run.2 !! sid
      = Some (q ++ [SetUserConfigRequest (config body)]) /\
    (forall s, s ≠ sid ->
       sessions theme_run.2 !! s
       = sessions (host_world (completion_config true) true false) !! s).
Proof.
  split; [by vm_compute|].
  apply (save_user_config_starts_never_stops json_body file_save_config
           lsp_start (HTTPException 404) (editor_request "dark theme")
           (host_world (completion_config true) true false)
           theme_run.2 SuccessResponse).
  by vm_compute.
Defined.

(** C8 as stated fails: the accepted request switches copilot off while the
    language server is running; afterwards the stored toggle is off and the
    server is still running, the handler having called nothing but
    [save_config] and [put_control_request]. *)
Lemma copilot_switched_off_server_keeps_running :
  switch_off_run.1 = Ok SuccessResponse /\
  lsp_server (host_world (completion_config true) true true) = true /\
  copilot_toggle (on_disk (config_manager switch_off_run.2))
    = Ok (PyBool false) /\
  lsp_server switch_off_run.2 = true /\
  effects switch_off_run.2
    = [SaveConfig (completion_config false);
       PutControlRequest "s1" (SetUserConfigRequest (completion_config false))].
Proof. by vm_compute. Qed.

(** C9 at work: the configuration file is read-only. *)
Lemma save_failure_reaches_neither_lsp_nor_kernel_witness :
  json_body "copilot on" = Ok {| config := completion_config true |} /\
  file_save_config (completion_config true)
      (config_manager (host_world (completion_config false) false false))
    = Raise (Failure "config file is read-only") /\
  (exists e', read_only_run.1 = Raise e') /\
  new_effects json_body file_save_config lsp_start (HTTPException 404)
      (editor_request "copilot on")
      (host_world (completion_config false) false false)
    = [SaveConfig (completion_config true)] /\
  sessions read_only_run.2
    = sessions (host_world (completion_config false) false false) /\
  lsp_server read_only_run.2 = false /\
  config_manager read_only_run.2
    = config_manager (host_world (completion_config false) false false).
Proof.
  split; [reflexivity|]. split; [reflexivity|].
  exact (proj1 (save_failure_reaches_neither_lsp_nor_kernel json_body
                  file_save_config lsp_start (HTTPException 404)
                  (editor_request "copilot on")
                  (host_world (completion_config false) false false))
           {| config := completion_config true |}
           (Failure "config file is read-only") eq_refl eq_refl).
Defined.

(** C10 at work on the theme-only request. *)
Lemma kernel_is_sent_the_request_config_witness :
  theme_run = (Ok SuccessResponse, theme_run.2) /\
  exists body cfg copilot sid q,
    json_body "dark theme" = Ok body /\
    file_save_config (config body)
        (config_manager (host_world (completion_config true) true false))
      = Ok (cfg, config_manager theme_run.2) /\
    copilot_toggle cfg = Ok copilot /\
    session_header (editor_request "dark theme") = Some sid /\
    sessions (host_world (completion_config true) true false) !! sid = Some q /\
    sessions theme_run.2 !! sid
      = Some (q ++ [SetUserConfigRequest (config body)]) /\
    (StartLspServer
       ∈ new_effects json_body file_save_config lsp_start (HTTPException 404)
           (editor_request "dark theme")
           (host_world (completion_config true) true false)
     <-> truthy copilot = true).
Proof.
  split; [by vm_compute|].
  apply (proj1 kernel_is_sent_the_request_config ConfigFile bool json_body
           file_save_config lsp_start (HTTPException 404)
           (editor_request "dark theme")
           (host_world (completion_config true) true false)
           theme_run.2 SuccessResponse).
  by vm_compute.
Defined.

End ConfigEndpointRuns.
(** * Facts about the dependency graph *)

Section GraphFacts.
Import Reactive.
Context {Source Value : Type}.
Implicit Types (us : gmap UnitId (Unit Source Value)).

Lemma children_dom us b c : c ∈ children us b -> c ∈ dom us.
Proof.
  unfold children. destruct (us !! b) as [ub|]; [|set_solver].
  intros [x Hx]%elem_of_dom. apply map_lookup_filter_Some in Hx as [Hx _].
  apply elem_of_dom. eauto.
Qed.

Lemma grow_dom us (S : gset UnitId) : S ⊆ dom us -> grow us S ⊆ dom us.
Proof.
  intros HS x. unfold grow. rewrite elem_of_union, elem_of_set_bind.
  intros [?|(y & _ & Hy)]; [by apply HS|by eapply children_dom].
Qed.

Lemma iter_grow_dom us k (S : gset UnitId) :
  S ⊆ dom us -> Nat.iter k (grow us) S ⊆ dom us.
Proof. intros HS. induction k as [|k IH]; simpl; [done|by apply grow_dom]. Qed.

Lemma iter_grow_incl us k (S : gset UnitId) : S ⊆ Nat.iter k (grow us) S.
Proof.
  induction k as [|k IH]; simpl; [done|]. unfold grow at 1. set_solver.
Qed.

Lemma grow_empty us : grow us ∅ = ∅.
Proof. unfold grow. apply set_eq. intros x. rewrite elem_of_union, elem_of_set_bind. set_solver. Qed.

Lemma iter_grow_empty us k : Nat.iter k (grow us) ∅ = ∅.
Proof. induction k as [|k IH]; simpl; [done|]. by rewrite IH, grow_empty. Qed.

(** Growing either has stopped or has added a unit at every round. *)
Lemma iter_grow_closed_or_large us k (S : gset UnitId) :
  grow us (Nat.iter k (grow us) S) ⊆ Nat.iter k (grow us) S
  \/ size S + k <= size (Nat.iter k (grow us) S).
Proof.
  induction k as [|k IH]; simpl.
  - right. lia.
  - set (T := Nat.iter k (grow us) S) in *.
    destruct (decide (grow us T ⊆ T)) as [Hc|Hn].
    + left. assert (grow us T = T) as ->; [|done].
      apply set_eq. intros x. split; [apply Hc|]. unfold grow. set_solver.
    + right. destruct IH as [?|IH]; [done|].
      assert (T ⊂ grow us T) as Hlt.
      { split; [unfold grow; set_solver|done]. }
      apply subset_size in Hlt. lia.
Qed.

Lemma descendants_closed us b d c :
  d ∈ descendants us b -> c ∈ children us d -> c ∈ descendants us b.
Proof.
  intros Hd Hc. unfold descendants in *.
  destruct (iter_grow_closed_or_large us (size us) (children us b)) as [Hcl|Hsz].
  - apply Hcl. unfold grow. rewrite elem_of_union, elem_of_set_bind. eauto.
  - assert (Nat.iter (size us) (grow us) (children us b) ⊆ dom us) as Hdom.
    { apply iter_grow_dom. intros x. apply children_dom. }
    apply subseteq_size in Hdom. rewrite size_dom in Hdom.
    assert (size (children us b) = 0) as Hz by lia.
    apply size_empty_iff in Hz. apply leibniz_equiv in Hz.
    rewrite Hz, iter_grow_empty in Hd. set_solver.
Qed.

Lemma children_descendants us b c :
  c ∈ children us b -> c ∈ descendants us b.
Proof. apply iter_grow_incl. Qed.

Lemma iter_grow_sound us k (S : gset UnitId) b d :
  (forall x, x ∈ S -> tc (edge us) b x) ->
  d ∈ Nat.iter k (grow us) S -> tc (edge us) b d.
Proof.
  intros HS. induction k as [|k IH] in d |- *; simpl; [by apply HS|].
  unfold grow at 1. rewrite elem_of_union, elem_of_set_bind.
  intros [?|(y & Hy & Hd)]; [by apply IH|].
  eapply tc_r; [by apply IH|done].
Qed.

(** The computed set is exactly what the edges reach. *)
Lemma descendants_reach us b d :
  d ∈ descendants us b <-> tc (edge us) b d.
Proof.
  split.
  - apply iter_grow_sound. intros x Hx. by apply tc_once.
  - assert (forall x, tc (edge us) x d -> x ∈ descendants us b ->
                      d ∈ descendants us b) as Hstep.
    { intros x Hx. induction Hx as [x d Hxd|x y d Hxy _ IH]; intros Hin.
      - by eapply descendants_closed.
      - apply IH. by eapply descendants_closed. }
    intros Hbd. inversion Hbd as [? ? Hc|? y ? Hby Hyd]; subst.
    + by apply children_descendants.
    + apply (Hstep y Hyd). by apply children_descendants.
Qed.

Lemma descendants_trans us a b c :
  b ∈ descendants us a -> c ∈ descendants us b -> c ∈ descendants us a.
Proof.
  rewrite !descendants_reach. intros Hab Hbc. by etrans.
Qed.

Lemma descendants_dom us b d : d ∈ descendants us b -> d ∈ dom us.
Proof.
  unfold descendants. apply iter_grow_dom. intros x. apply children_dom.
Qed.


(** ** The order of a pass *)

#[local] Instance by_position_trans us : Transitive (by_position us).
Proof. intros a b c. unfold by_position. lia. Qed.
#[local] Instance by_position_total us : Total (by_position us).
Proof. intros a b. unfold by_position. lia. Qed.

Lemma tiers_elem us fuel rem x :
  x ∈ concat (tiers us fuel rem) -> x ∈ rem.
Proof.
  induction fuel as [|fuel IH] in rem |- *; simpl; [by intros ?%elem_of_nil|].
  destruct (filter (ready us rem) rem) as [|t tier] eqn:Htier;
    [by intros ?%elem_of_nil|].
  simpl. rewrite elem_of_app. intros [Hx|Hx].
  - rewrite merge_sort_Permutation, <- Htier in Hx.
    by apply list_elem_of_filter in Hx as [_ ?].
  - apply IH in Hx. by apply list_elem_of_filter in Hx as [_ ?].
Qed.

(** A tier holds units that were ready together, in position order. *)
Lemma tiers_tier us fuel rem tier :
  tier ∈ tiers us fuel rem ->
  StronglySorted (by_position us) tier /\
  exists rem', rem' ⊆ rem /\ forall a, a ∈ tier <-> a ∈ rem' /\ ready us rem' a.
Proof.
  induction fuel as [|fuel IH] in rem |- *; simpl; [by intros ?%elem_of_nil|].
  destruct (filter (ready us rem) rem) as [|t l] eqn:Htier;
    [by intros ?%elem_of_nil|].
  intros [->|Hin]%elem_of_cons.
  - split; [apply StronglySorted_merge_sort; apply _|].
    exists rem. split; [done|]. intros a.
    rewrite merge_sort_Permutation, <- Htier, list_elem_of_filter. tauto.
  - apply IH in Hin as (Hs & rem' & Hsub & Hiff). split; [done|].
    exists rem'. split; [|done]. intros x Hx. apply Hsub in Hx.
    by apply list_elem_of_filter in Hx as [_ ?].
Qed.

(** No unit runs before a unit it descends from. *)
Lemma tiers_topological us fuel rem :
  StronglySorted (fun a b => a ∉ descendants us b) (concat (tiers us fuel rem)).
Proof.
  induction fuel as [|fuel IH] in rem |- *; simpl; [constructor|].
  destruct (filter (ready us rem) rem) as [|t l] eqn:Htier; [constructor|].
  simpl.
  assert (forall a, a ∈ merge_sort (by_position us) (t :: l) ->
                    forall b, b ∈ rem -> a ∉ descendants us b) as Hready.
  { intros a Ha b Hb. rewrite merge_sort_Permutation, <- Htier in Ha.
    apply list_elem_of_filter in Ha as [Ha _].
    unfold ready in Ha. rewrite Forall_forall in Ha. by apply Ha. }
  assert (forall a, a ∈ merge_sort (by_position us) (t :: l) -> a ∈ rem) as Hsub.
  { intros a Ha. rewrite merge_sort_Permutation, <- Htier in Ha.
    by apply list_elem_of_filter in Ha as [_ ?]. }
  apply StronglySorted_app_2; [| |apply IH].
  - intros a b Ha Hb. apply (Hready a Ha).
    apply tiers_elem in Hb. by apply list_elem_of_filter in Hb as [_ ?].
  - revert Hready Hsub. generalize (merge_sort (by_position us) (t :: l)).
    intros k Hready Hsub. induction k as [|a k IHk]; [constructor|].
    constructor.
    + apply IHk; intros; [apply Hready|apply Hsub]; set_solver.
    + apply Forall_forall. intros b Hb. apply Hready; [set_solver|].
      apply Hsub. set_solver.
Qed.

(** Among units none of which is its own descendant, one is ready. *)
Lemma exists_ready us rem :
  rem ≠ [] ->
  (forall a, a ∈ rem -> a ∉ descendants us a) ->
  exists m, m ∈ rem /\ ready us rem m.
Proof.
  induction rem as [|x rem IH]; [done|]. intros _ Hirr.
  destruct rem as [|y rem'].
  { exists x. split; [set_solver|]. unfold ready. rewrite Forall_forall.
    intros v ->%list_elem_of_singleton. apply Hirr. set_solver. }
  destruct IH as (m & Hm & Hready); [done|intros; apply Hirr; set_solver|].
  unfold ready in *. rewrite Forall_forall in Hready.
  destruct (decide (m ∈ descendants us x)) as [Hmx|Hmx].
  - exists x. split; [set_solver|]. rewrite Forall_forall.
    intros v [->|Hv]%elem_of_cons; [apply Hirr; set_solver|].
    intros Hxv. apply (Hready v Hv). by eapply descendants_trans.
  - exists m. split; [set_solver|]. rewrite Forall_forall.
    intros v [->|Hv]%elem_of_cons; [done|by apply Hready].
Qed.

(** With enough rounds every unit of an acyclic set gets its tier. *)
Lemma tiers_complete us fuel rem :
  length rem <= fuel ->
  (forall a, a ∈ rem -> a ∉ descendants us a) ->
  concat (tiers us fuel rem) ≡ₚ rem.
Proof.
  induction fuel as [|fuel IH] in rem |- *; intros Hlen Hirr.
  { destruct rem; [done|simpl in Hlen; lia]. }
  simpl. destruct (filter (ready us rem) rem) as [|t l] eqn:Htier.
  - destruct rem as [|x rem']; [done|].
    destruct (exists_ready us (x :: rem')) as (m & Hm & Hr); [done|done|].
    assert (m ∈ filter (ready us (x :: rem')) (x :: rem')) as Hin
      by by apply list_elem_of_filter.
    rewrite Htier in Hin. by apply elem_of_nil in Hin.
  - simpl. rewrite merge_sort_Permutation, <- Htier.
    rewrite IH.
    + apply filter_app_complement.
    + assert (t ∈ filter (ready us rem) rem) as Ht by (rewrite Htier; set_solver).
      apply list_elem_of_filter in Ht as [Hr Ht].
      assert (¬ ¬ ready us rem t) as Hnn by tauto.
      pose proof (length_filter_lt (fun v => ¬ ready us rem v) rem t Ht Hnn).
      lia.
    + intros a Ha. apply Hirr. by apply list_elem_of_filter in Ha as [_ ?].
Qed.


(** ** The graph depends on definitions and references only *)

Lemma same_graph_refl us : same_graph us us.
Proof. intros id. by destruct (us !! id). Qed.

Lemma same_graph_trans us1 us2 us3 :
  same_graph us1 us2 -> same_graph us2 us3 -> same_graph us1 us3.
Proof.
  intros H12 H23 id. specialize (H12 id). specialize (H23 id).
  destruct (us1 !! id), (us2 !! id), (us3 !! id); try done.
  destruct H12 as [-> ->]. done.
Qed.

Lemma same_graph_imap us (f : UnitId -> Unit Source Value -> Unit Source Value) :
  (forall id u, defined (f id u) = defined u /\ referenced (f id u) = referenced u) ->
  same_graph us (map_imap (fun id u => Some (f id u)) us).
Proof.
  intros Hf id. rewrite map_lookup_imap. destruct (us !! id) as [u|]; simpl; [|done].
  destruct (Hf id u) as [-> ->]. done.
Qed.

Lemma same_graph_insert us id u u' :
  us !! id = Some u -> defined u' = defined u -> referenced u' = referenced u ->
  same_graph us (<[id := u']> us).
Proof.
  intros Hu Hd Hr j. destruct (decide (j = id)) as [->|Hne].
  - by rewrite Hu, lookup_insert_eq.
  - rewrite lookup_insert_ne by done. by destruct (us !! j).
Qed.

Lemma elem_of_children us b c :
  c ∈ children us b <->
  exists ub uc, us !! b = Some ub /\ us !! c = Some uc /\ references_def uc ub.
Proof.
  unfold children. destruct (us !! b) as [ub|].
  - rewrite elem_of_dom. unfold is_Some. split.
    + intros [uc [Hc Hr]%map_lookup_filter_Some]. eauto.
    + intros (ub' & uc & [= <-] & Hc & Hr). exists uc.
      by apply map_lookup_filter_Some.
  - split; [set_solver|]. by intros (? & ? & ? & _).
Qed.

Lemma same_graph_children us us' b :
  same_graph us us' -> children us b = children us' b.
Proof.
  assert (forall us us' c, same_graph us us' ->
            c ∈ children us b -> c ∈ children us' b) as Hone.
  { clear. intros us us' c Hsame. rewrite !elem_of_children.
    intros (ub & uc & Hb & Hc & Hr).
    pose proof (Hsame b) as Hsb. pose proof (Hsame c) as Hsc.
    rewrite Hb in Hsb. rewrite Hc in Hsc.
    destruct (us' !! b) as [ub'|]; [|done].
    destruct (us' !! c) as [uc'|]; [|done].
    exists ub', uc'. repeat split; try done.
    unfold references_def in *. destruct Hsb as [<- _], Hsc as [_ <-]. done. }
  intros Hsame. apply set_eq. intros c. split; apply Hone; [done|].
  intros id. specialize (Hsame id).
  destruct (us !! id), (us' !! id); try done. destruct Hsame as [-> ->]. done.
Qed.

Lemma same_graph_dom us us' : same_graph us us' -> dom us = dom us'.
Proof.
  intros Hsame. apply set_eq. intros id. rewrite !elem_of_dom.
  specialize (Hsame id). by destruct (us !! id), (us' !! id).
Qed.

Lemma same_graph_descendants us us' b :
  same_graph us us' -> descendants us b = descendants us' b.
Proof.
  intros Hsame. unfold descendants.
  rewrite <- (size_dom us), <- (size_dom us'), (same_graph_dom _ _ Hsame).
  rewrite (same_graph_children _ _ b Hsame).
  generalize (children us' b). generalize (size (dom us')).
  intros k. induction k as [|k IH]; intros S; simpl; [done|].
  rewrite IH. unfold grow. f_equal. apply set_eq. intros x.
  rewrite !elem_of_set_bind. split; intros (y & Hy & Hx); exists y;
    (split; [done|]); [by rewrite <- (same_graph_children _ _ y Hsame)
                      |by rewrite (same_graph_children _ _ y Hsame)].
Qed.

Lemma same_graph_mark_conflicts us : same_graph us (mark_conflicts us).
Proof.
  intros id. unfold mark_conflicts. rewrite map_lookup_imap.
  destruct (us !! id) as [u|]; simpl; [|done].
  destruct (conflict_tag us id); [|done].
  by destruct (is_multiple_definition (last_error u)).
Qed.

Lemma same_graph_cycle_check us : same_graph us (cycle_check us).
Proof.
  unfold cycle_check.
  apply (same_graph_imap us
           (fun id u =>
              if decide (id ∈ descendants us id)
              then with_status u error (Some CycleError)
              else if decide (last_error u = Some CycleError)
                   then with_status u stale None else u)).
  intros id u. by repeat case_decide.
Qed.

Lemma same_graph_mark_stale us (D : gset UnitId) : same_graph us (mark_stale us D).
Proof.
  unfold mark_stale.
  apply (same_graph_imap us
           (fun id u => if decide (id ∈ D)
                        then with_status u stale (last_error u) else u)).
  intros id u. by case_decide.
Qed.

(** A unit on a cycle is not schedulable once [cycle_check] has run. *)
Lemma affected_acyclic us id a :
  a ∈ affected (cycle_check us) id ->
  a ∉ descendants (cycle_check us) a.
Proof.
  unfold affected. rewrite list_elem_of_filter. intros [Hs _].
  rewrite <- (same_graph_descendants us) by apply same_graph_cycle_check.
  intros Hcycle. unfold schedulable, cycle_check in Hs.
  rewrite map_lookup_imap in Hs. destruct (us !! a) as [u|]; simpl in Hs; [|done].
  by rewrite decide_True in Hs.
Qed.

Lemma affected_NoDup us id : NoDup (affected us id).
Proof. unfold affected. apply NoDup_filter, NoDup_elements. Qed.

Lemma affected_dom us id a : a ∈ affected us id -> a ∈ dom us.
Proof.
  unfold affected. rewrite list_elem_of_filter. intros [Hs _].
  unfold schedulable in Hs. apply elem_of_dom.
  by destruct (us !! a).
Qed.

(** The schedule of an edit: every affected unit once, none before a unit
    it descends from. *)
Lemma schedule_permutation us id :
  schedule (cycle_check us) (affected (cycle_check us) id)
  ≡ₚ affected (cycle_check us) id.
Proof.
  unfold schedule. apply tiers_complete; [done|].
  intros a. apply affected_acyclic.
Qed.

End GraphFacts.

(** ** One pass *)

Section PassFacts.
Import Reactive.
Context {Source Value : Type}.
Variable execute : Source -> gmap Name Value -> option (Value * gmap Name Value).
Implicit Types (graph us : gmap UnitId (Unit Source Value))
  (nb : Notebook Source Value).

Lemma lookup_mark_stale us (D : gset UnitId) x :
  mark_stale us D !! x
  = (fun u => if decide (x ∈ D) then with_status u stale (last_error u) else u)
      <$> us !! x.
Proof.
  unfold mark_stale. rewrite map_lookup_imap. by destruct (us !! x).
Qed.

Lemma run_unit_cases graph nb id :
  (units nb !! id = None /\
   run_unit execute graph nb id = (nb, ∅) /\
   unit_events execute graph nb id = [])
  \/
  (exists u v ns,
     units nb !! id = Some u /\ execute (source u) (env nb) = Some (v, ns) /\
     run_unit execute graph nb id
     = ({| units := <[id := with_result u v]> (units nb);
           env := publish (defined u) ns (env nb);
           events := events nb ++ [(id, running, None); (id, idle, None)] |}, ∅) /\
     unit_events execute graph nb id = [(id, running, None); (id, idle, None)])
  \/
  (exists u,
     units nb !! id = Some u /\ execute (source u) (env nb) = None /\
     run_unit execute graph nb id
     = ({| units :=
             mark_stale
               (<[id := with_status u error (Some RuntimeError)]> (units nb))
               (descendants graph id ∖ {[id]});
           env := env nb;
           events :=
             events nb
             ++ [(id, running, None); (id, error, Some RuntimeError)]
             ++ ((fun d => (d, stale, None))
                   <$> elements (descendants graph id ∖ {[id]})) |},
        descendants graph id ∖ {[id]}) /\
     unit_events execute graph nb id
     = [(id, running, None); (id, error, Some RuntimeError)]
       ++ ((fun d => (d, stale, None))
             <$> elements (descendants graph id ∖ {[id]}))).
Proof.
  unfold run_unit, unit_events.
  destruct (units nb !! id) as [u|]; [|by left].
  destruct (execute (source u) (env nb)) as [[v ns]|] eqn:Hex.
  - right; left. exists u, v, ns. by repeat split.
  - right; right. exists u. by repeat split.
Qed.

Lemma run_unit_events graph nb id :
  events (run_unit execute graph nb id).1
  = events nb ++ unit_events execute graph nb id.
Proof.
  destruct (run_unit_cases graph nb id)
    as [(_ & -> & ->)|[(u & v & ns & _ & _ & -> & ->)|(u & _ & _ & -> & ->)]];
    simpl; by rewrite ?app_nil_r.
Qed.

Lemma execute_all_events graph order skipped nb :
  events (execute_all execute graph order skipped nb)
  = events nb ++ pass_events execute graph order skipped nb.
Proof.
  induction order as [|id rest IH] in skipped, nb |- *; simpl;
    [by rewrite app_nil_r|].
  destruct (decide (id ∈ skipped)); [apply IH|].
  pose proof (run_unit_events graph nb id) as Hev.
  destruct (run_unit execute graph nb id) as [nb' D]. simpl in Hev.
  by rewrite IH, Hev, app_assoc.
Qed.

(** A unit's own events are the only ones that are not [stale]. *)
Lemma unit_events_own graph nb id x s e :
  (x, s, e) ∈ unit_events execute graph nb id ->
  (x = id /\ s ≠ stale) \/
  (s = stale /\ e = None /\ x ∈ descendants graph id ∖ {[id]} /\
   exists u, units nb !! id = Some u /\ execute (source u) (env nb) = None).
Proof.
  destruct (run_unit_cases graph nb id)
    as [(_ & _ & ->)|[(u & v & ns & _ & _ & _ & ->)|(u & Hu & Hex & _ & ->)]].
  - by intros ?%elem_of_nil.
  - rewrite !elem_of_cons, elem_of_nil.
    intros [[= -> -> ->]|[[= -> -> ->]|[]]]; by left.
  - rewrite elem_of_app, !elem_of_cons, elem_of_nil, list_elem_of_fmap.
    intros [[[= -> -> ->]|[[= -> -> ->]|[]]]|(d & [= -> -> ->] & Hd)];
      [by left|by left|].
    right. apply elem_of_elements in Hd. eauto 10.
Qed.

Lemma unit_events_fault graph nb id x :
  (x, error, Some RuntimeError) ∈ unit_events execute graph nb id ->
  x = id /\ exists u, units nb !! id = Some u /\ execute (source u) (env nb) = None.
Proof.
  destruct (run_unit_cases graph nb id)
    as [(_ & _ & ->)|[(u & v & ns & _ & _ & _ & ->)|(u & Hu & Hex & _ & ->)]].
  - by intros ?%elem_of_nil.
  - rewrite !elem_of_cons, elem_of_nil. by intros [[=]|[[=]|[]]].
  - rewrite elem_of_app, !elem_of_cons, elem_of_nil, list_elem_of_fmap.
    intros [[[=]|[[= ->]|[]]]|(d & [=] & _)]. eauto.
Qed.

(** Whatever starts or fails in a pass was scheduled and not skipped. *)
Lemma pass_events_scheduled graph order skipped nb x s e :
  (x, s, e) ∈ pass_events execute graph order skipped nb ->
  s ≠ stale ->
  x ∈ order /\ x ∉ skipped.
Proof.
  induction order as [|id rest IH] in skipped, nb |- *; simpl;
    [by intros ?%elem_of_nil|].
  destruct (decide (id ∈ skipped)) as [Hskip|Hskip].
  { intros Hin Hs. destruct (IH _ _ Hin Hs). split; [set_solver|done]. }
  destruct (run_unit execute graph nb id) as [nb' D].
  rewrite elem_of_app. intros [Hin|Hin] Hs.
  - apply unit_events_own in Hin as [[-> _]|(-> & _)]; [|done].
    split; [set_solver|done].
  - destruct (IH _ _ Hin Hs). split; set_solver.
Qed.


Lemma run_unit_other graph nb id x :
  x ≠ id -> x ∉ descendants graph id ∖ {[id]} ->
  units (run_unit execute graph nb id).1 !! x = units nb !! x.
Proof.
  intros Hne Hx.
  destruct (run_unit_cases graph nb id)
    as [(_ & -> & _)|[(u & v & ns & _ & _ & -> & _)|(u & _ & _ & -> & _)]];
    simpl; [done|by rewrite lookup_insert_ne|].
  rewrite lookup_mark_stale, lookup_insert_ne by done.
  destruct (units nb !! x); simpl; [|done]. by rewrite decide_False.
Qed.

Lemma run_unit_output graph nb id x :
  x ≠ id ->
  output_of (run_unit execute graph nb id).1 x = output_of nb x.
Proof.
  intros Hne. unfold output_of.
  destruct (run_unit_cases graph nb id)
    as [(_ & -> & _)|[(u & v & ns & _ & _ & -> & _)|(u & _ & _ & -> & _)]];
    simpl; [done|by rewrite lookup_insert_ne|].
  rewrite lookup_mark_stale, lookup_insert_ne by done.
  destruct (units nb !! x); simpl; [|done]. by case_decide.
Qed.

Lemma run_unit_stale_stays graph nb id x :
  x ≠ id -> status_of nb x = Some stale ->
  status_of (run_unit execute graph nb id).1 x = Some stale.
Proof.
  intros Hne. unfold status_of.
  destruct (run_unit_cases graph nb id)
    as [(_ & -> & _)|[(u & v & ns & _ & _ & -> & _)|(u & _ & _ & -> & _)]];
    simpl; [done|by rewrite lookup_insert_ne|].
  rewrite lookup_mark_stale, lookup_insert_ne by done.
  destruct (units nb !! x); simpl; [|done]. by case_decide.
Qed.

Lemma dom_mark_stale us (D : gset UnitId) : dom (mark_stale us D) = dom us.
Proof.
  apply set_eq. intros x. rewrite !elem_of_dom, lookup_mark_stale.
  apply fmap_is_Some.
Qed.

Lemma run_unit_dom graph nb id :
  dom (units (run_unit execute graph nb id).1) = dom (units nb).
Proof.
  destruct (run_unit_cases graph nb id)
    as [(_ & -> & _)|[(u & v & ns & Hu & _ & -> & _)|(u & Hu & _ & -> & _)]];
    simpl; [done| |].
  - apply dom_insert_lookup_L. eauto.
  - rewrite dom_mark_stale. apply dom_insert_lookup_L. eauto.
Qed.

(** Outputs change only for units that started. *)
Lemma pass_output graph order skipped nb x :
  (x, running, None) ∉ pass_events execute graph order skipped nb ->
  output_of (execute_all execute graph order skipped nb) x = output_of nb x.
Proof.
  induction order as [|id rest IH] in skipped, nb |- *; simpl; [done|].
  destruct (decide (id ∈ skipped)); [apply IH|].
  pose proof (run_unit_output graph nb id x) as Hout.
  destruct (run_unit_cases graph nb id)
    as [(_ & Hrun & Hev)|[(u & v & ns & _ & _ & Hrun & Hev)|(u & _ & _ & Hrun & Hev)]];
    rewrite Hrun in *; rewrite Hev; simpl in *.
  - apply IH.
  - intros Hnot. rewrite IH by set_solver. apply Hout. set_solver.
  - intros Hnot. rewrite IH by set_solver. apply Hout. set_solver.
Qed.

(** A stale unit that does not start stays stale. *)
Lemma pass_stale_stays graph order skipped nb x :
  status_of nb x = Some stale ->
  (x, running, None) ∉ pass_events execute graph order skipped nb ->
  status_of (execute_all execute graph order skipped nb) x = Some stale.
Proof.
  induction order as [|id rest IH] in skipped, nb |- *; simpl; [done|].
  destruct (decide (id ∈ skipped)); [apply IH|].
  pose proof (run_unit_stale_stays graph nb id x) as Hst.
  destruct (run_unit_cases graph nb id)
    as [(_ & Hrun & Hev)|[(u & v & ns & _ & _ & Hrun & Hev)|(u & _ & _ & Hrun & Hev)]];
    rewrite Hrun in *; rewrite Hev; simpl in *.
  - apply IH.
  - intros Hs Hnot. apply IH; [|set_solver]. apply Hst; [set_solver|done].
  - intros Hs Hnot. apply IH; [|set_solver]. apply Hst; [set_solver|done].
Qed.

(** A unit that is neither scheduled nor downstream of a scheduled unit
    is left alone. *)
Lemma pass_untouched graph order skipped nb x :
  x ∉ order ->
  (forall y, y ∈ order -> x ∉ descendants graph y) ->
  units (execute_all execute graph order skipped nb) !! x = units nb !! x.
Proof.
  induction order as [|id rest IH] in skipped, nb |- *; simpl; [done|].
  intros Hx Hdesc.
  destruct (decide (id ∈ skipped)); [apply IH; set_solver|].
  pose proof (run_unit_other graph nb id x) as Hother.
  destruct (run_unit execute graph nb id) as [nb' D]. simpl in Hother.
  rewrite IH by set_solver. apply Hother; [set_solver|].
  specialize (Hdesc id). set_solver.
Qed.

Lemma pass_dom graph order skipped nb :
  dom (units (execute_all execute graph order skipped nb)) = dom (units nb).
Proof.
  induction order as [|id rest IH] in skipped, nb |- *; simpl; [done|].
  destruct (decide (id ∈ skipped)); [apply IH|].
  pose proof (run_unit_dom graph nb id) as Hdom.
  destruct (run_unit execute graph nb id) as [nb' D]. simpl in Hdom.
  by rewrite IH.
Qed.



(** The pass changes no definition and no reference. *)
Lemma run_unit_same_graph graph nb id :
  same_graph (units nb) (units (run_unit execute graph nb id).1).
Proof.
  destruct (run_unit_cases graph nb id)
    as [(_ & -> & _)|[(u & v & ns & Hu & _ & -> & _)|(u & Hu & _ & -> & _)]];
    simpl.
  - apply same_graph_refl.
  - by apply (same_graph_insert _ _ u).
  - eapply same_graph_trans; [|apply same_graph_mark_stale].
    by apply (same_graph_insert _ _ u).
Qed.

Lemma pass_same_graph graph order skipped nb :
  same_graph (units nb) (units (execute_all execute graph order skipped nb)).
Proof.
  induction order as [|id rest IH] in skipped, nb |- *; simpl;
    [apply same_graph_refl|].
  destruct (decide (id ∈ skipped)); [apply IH|].
  pose proof (run_unit_same_graph graph nb id) as Hsame.
  destruct (run_unit execute graph nb id) as [nb' D]. simpl in Hsame.
  eapply same_graph_trans; [exact Hsame|apply IH].
Qed.

Lemma same_graph_defined us (us' : gmap UnitId (Unit Source Value)) id u' :
  same_graph us us' -> us' !! id = Some u' ->
  exists u, us !! id = Some u /\ defined u = defined u'.
Proof.
  intros Hsame Hu'. specialize (Hsame id). rewrite Hu' in Hsame.
  destruct (us !! id) as [u|]; [|done]. exists u. by destruct Hsame.
Qed.

(** *** Publishing *)

Lemma publish_other defs (ns e : gmap Name Value) n :
  n ∉ defs -> publish defs ns e !! n = e !! n.
Proof.
  induction defs as [|m defs IH]; simpl; [done|].
  rewrite not_elem_of_cons. intros [Hne Hn].
  destruct (ns !! m); [rewrite lookup_insert_ne by done|]; by apply IH.
Qed.

Lemma run_unit_env graph nb id n :
  (forall u, units nb !! id = Some u ->
             (id, idle, None) ∈ unit_events execute graph nb id ->
             n ∉ defined u) ->
  env (run_unit execute graph nb id).1 !! n = env nb !! n.
Proof.
  intros Hn.
  destruct (run_unit_cases graph nb id)
    as [(_ & -> & _)|[(u & v & ns & Hu & _ & -> & Hev)|(u & _ & _ & -> & _)]];
    simpl; [done| |done].
  apply publish_other, (Hn u Hu). rewrite Hev. set_solver.
Qed.

(** A binding changes only when a unit that defines the name completes. *)
Lemma pass_env graph order skipped nb n :
  (forall y u, (y, idle, None) ∈ pass_events execute graph order skipped nb ->
               units nb !! y = Some u -> n ∉ defined u) ->
  env (execute_all execute graph order skipped nb) !! n = env nb !! n.
Proof.
  induction order as [|id rest IH] in skipped, nb |- *; simpl; [done|].
  destruct (decide (id ∈ skipped)); [apply IH|].
  pose proof (run_unit_env graph nb id n) as Henv.
  pose proof (run_unit_same_graph graph nb id) as Hsame.
  destruct (run_unit execute graph nb id) as [nb' D]. simpl in Henv, Hsame.
  intros Hn. rewrite IH.
  - apply Henv. intros u Hu Hev. apply (Hn id u); [|done]. set_solver.
  - intros y u' Hev Hu'.
    destruct (same_graph_defined _ _ _ _ Hsame Hu') as (u & Hu & <-).
    apply (Hn y u); [|done]. set_solver.
Qed.

(** *** The units a pass starts *)

Lemma started_app (l1 l2 : list Event) :
  started (l1 ++ l2) = started l1 ++ started l2.
Proof. unfold started. by rewrite filter_app, fmap_app. Qed.

Lemma started_stale (ds : list UnitId) :
  started ((fun d => (d, stale, None)) <$> ds) = [].
Proof.
  unfold started. induction ds as [|d ds IH]; simpl; [done|].
  rewrite filter_cons_False; [done|]. simpl. discriminate.
Qed.

Lemma started_unit_events graph nb id :
  started (unit_events execute graph nb id)
  = match units nb !! id with Some _ => [id] | None => [] end.
Proof.
  destruct (run_unit_cases graph nb id)
    as [(-> & _ & ->)|[(u & v & ns & -> & _ & _ & ->)|(u & -> & _ & _ & ->)]];
    [done|done|].
  rewrite started_app, started_stale. done.
Qed.

Lemma elem_of_started (evs : list Event) x :
  x ∈ started evs <-> exists e, (x, running, e) ∈ evs.
Proof.
  unfold started. rewrite list_elem_of_fmap. split.
  - intros ([[y s] e] & -> & [Hs Hin]%list_elem_of_filter). simpl in *.
    subst. eauto.
  - intros (e & Hin). exists (x, running, e). split; [done|].
    by apply list_elem_of_filter.
Qed.

(** Units start in schedule order. *)
Lemma started_sublist graph order skipped nb :
  started (pass_events execute graph order skipped nb) `sublist_of` order.
Proof.
  induction order as [|id rest IH] in skipped, nb |- *; simpl; [constructor|].
  destruct (decide (id ∈ skipped)); [apply sublist_cons, IH|].
  pose proof (started_unit_events graph nb id) as Hst.
  destruct (run_unit execute graph nb id) as [nb' D].
  rewrite started_app, Hst.
  destruct (units nb !! id); simpl; [apply sublist_skip|apply sublist_cons];
    apply IH.
Qed.

(** When nothing raises, every scheduled unit starts. *)
Lemma started_all graph order nb :
  (forall x, x ∈ order -> x ∈ dom (units nb)) ->
  (forall x, (x, error, Some RuntimeError)
               ∉ pass_events execute graph order ∅ nb) ->
  started (pass_events execute graph order ∅ nb) = order.
Proof.
  induction order as [|id rest IH] in nb |- *; simpl; [done|].
  intros Hdom. rewrite decide_False by set_solver.
  pose proof (started_unit_events graph nb id) as Hst.
  pose proof (run_unit_dom graph nb id) as Hd.
  destruct (run_unit_cases graph nb id)
    as [(Hu & Hrun & Hev)|[(u & v & ns & Hu & _ & Hrun & Hev)
                          |(u & Hu & _ & Hrun & Hev)]];
    rewrite Hrun in *; cbv beta iota zeta; intros Hok.
  - assert (id ∈ dom (units nb)) as [? ?]%elem_of_dom by (apply Hdom; set_solver).
    congruence.
  - rewrite started_app, Hst, Hu, union_empty_r_L. simpl. f_equal.
    apply IH.
    + intros x Hx. simpl in Hd |- *. rewrite Hd. apply Hdom. set_solver.
    + intros x Hx. apply (Hok x). rewrite union_empty_r_L. set_solver.
  - exfalso. apply (Hok id). rewrite Hev. set_solver.
Qed.


Lemma run_unit_fault graph nb id u :
  units nb !! id = Some u -> execute (source u) (env nb) = None ->
  run_unit execute graph nb id
  = ({| units :=
          mark_stale
            (<[id := with_status u error (Some RuntimeError)]> (units nb))
            (descendants graph id ∖ {[id]});
        env := env nb;
        events :=
          events nb
          ++ [(id, running, None); (id, error, Some RuntimeError)]
          ++ ((fun d => (d, stale, None))
                <$> elements (descendants graph id ∖ {[id]})) |},
     descendants graph id ∖ {[id]}).
Proof. intros Hu Hex. unfold run_unit. by rewrite Hu, Hex. Qed.

(** Step 5 contains a fault: the unit that raised ends in error, and its
    strict descendants end stale, with the output they had, without having
    started. *)
Lemma pass_fault_contained graph order skipped nb w :
  StronglySorted (fun a b => a ∉ descendants graph b) order ->
  NoDup order ->
  dom graph ⊆ dom (units nb) ->
  (w, error, Some RuntimeError) ∈ pass_events execute graph order skipped nb ->
  status_of (execute_all execute graph order skipped nb) w = Some error /\
  error_of (execute_all execute graph order skipped nb) w
    = Some (Some RuntimeError) /\
  forall d, d ∈ descendants graph w -> d ≠ w ->
    status_of (execute_all execute graph order skipped nb) d = Some stale /\
    output_of (execute_all execute graph order skipped nb) d = output_of nb d /\
    d ∉ started (pass_events execute graph order skipped nb).
Proof.
  induction order as [|id rest IH] in skipped, nb |- *; simpl;
    [by intros _ _ _ ?%elem_of_nil|].
  intros [Hfirst Hsorted]%StronglySorted_cons [Hfresh Hnodup]%NoDup_cons Hdom.
  rewrite Forall_forall in Hfirst.
  destruct (decide (id ∈ skipped)) as [Hskip|Hskip]; [by apply IH|].
  pose proof (run_unit_dom graph nb id) as Hdom1.
  pose proof (run_unit_output graph nb id) as Hout1.
  pose proof (fun x s e => unit_events_own graph nb id x s e) as Hown.
  pose proof (unit_events_fault graph nb id w) as Hfault.
  destruct (run_unit execute graph nb id) as [nb1 D] eqn:Hrun.
  simpl in Hdom1, Hout1. rewrite elem_of_app. intros [Hin|Hin].
  - (* the unit at hand raised *)
    destruct (Hfault Hin) as (-> & u & Hu & Hex).
    rewrite (run_unit_fault _ _ _ _ Hu Hex) in Hrun.
    injection Hrun as <- <-.
    set (D := descendants graph id ∖ {[id]}) in *.
    set (nb1 := {| units := mark_stale _ D |}) in *.
    assert (units (execute_all execute graph rest (skipped ∪ D) nb1) !! id
            = Some (with_status u error (Some RuntimeError))) as Hid.
    { rewrite pass_untouched by (try done; intros y Hy; by apply Hfirst).
      simpl. rewrite lookup_mark_stale, lookup_insert_eq. simpl.
      rewrite decide_False; [done|]. unfold D. set_solver. }
    unfold status_of, error_of. rewrite Hid. simpl. repeat split; try done.
    all: assert (d ∈ D) as HdD by (unfold D; set_solver).
    all: assert (forall e, (d, running, e)
                   ∉ pass_events execute graph rest (skipped ∪ D) nb1) as Hno
           by (intros e Hd; apply pass_events_scheduled in Hd as [_ Hd];
               [set_solver|done]).
    + apply pass_stale_stays; [|done]. unfold status_of, nb1. simpl.
      rewrite lookup_mark_stale, lookup_insert_ne by done.
      assert (is_Some (units nb !! d)) as [ud ->].
      { apply elem_of_dom, Hdom. by eapply descendants_dom. }
      simpl. by rewrite decide_True.
    + rewrite pass_output by done. by apply Hout1.
    + rewrite elem_of_started. intros (e & [Hd|Hd]%elem_of_app);
        [|by apply (Hno e)].
      apply Hown in Hd as [[? _]|(? & _)]; done.
  - (* a later unit raised *)
    destruct (IH (skipped ∪ D) nb1 Hsorted Hnodup) as (Hs & He & Hdesc);
      [by rewrite Hdom1|done|].
    repeat split; try done.
    all: assert (w ∈ rest) as Hw
           by (by apply pass_events_scheduled in Hin as [? _]).
    all: assert (d ≠ id) as Hne
           by (intros ->; by apply (Hfirst w Hw)).
    all: destruct (Hdesc d) as (Hds & Hdo & Hdr); try done.
    + rewrite Hdo. by apply Hout1.
    + rewrite elem_of_started. intros (e & [Hd|Hd]%elem_of_app).
      * apply Hown in Hd as [[? _]|(? & _)]; done.
      * apply Hdr, elem_of_started. eauto.
Qed.


End PassFacts.

(** * Facts about [apply_edit] *)

Section EditFacts.
Import Reactive.
Context {Source Value : Type}.
Variable analyze : Source -> option (list Name * list Name).
Variable execute : Source -> gmap Name Value -> option (Value * gmap Name Value).
Implicit Types (us : gmap UnitId (Unit Source Value))
  (nb : Notebook Source Value).

Lemma mark_conflicts_kept us x :
  output <$> (mark_conflicts us !! x) = output <$> (us !! x) /\
  position <$> (mark_conflicts us !! x) = position <$> (us !! x).
Proof.
  unfold mark_conflicts. rewrite map_lookup_imap.
  destruct (us !! x) as [u|]; simpl; [|done].
  destruct (conflict_tag us x); [|done].
  by destruct (is_multiple_definition (last_error u)).
Qed.

Lemma cycle_check_kept us x :
  output <$> (cycle_check us !! x) = output <$> (us !! x) /\
  position <$> (cycle_check us !! x) = position <$> (us !! x).
Proof.
  unfold cycle_check. rewrite map_lookup_imap.
  destruct (us !! x) as [u|]; simpl; [|done]. by repeat case_decide.
Qed.

Lemma replan_unfold us id u src defs refs :
  replan us id u src defs refs
  = cycle_check (mark_conflicts (<[id := with_analysis u src defs refs]> us)).
Proof. unfold replan, upsert. by rewrite alter_insert_eq. Qed.

Lemma replan_kept us id u src defs refs x :
  us !! id = Some u ->
  output <$> (replan us id u src defs refs !! x) = output <$> (us !! x) /\
  position <$> (replan us id u src defs refs !! x) = position <$> (us !! x).
Proof.
  intros Hu. rewrite replan_unfold.
  destruct (cycle_check_kept
              (mark_conflicts (<[id := with_analysis u src defs refs]> us)) x)
    as [-> ->].
  destruct (mark_conflicts_kept (<[id := with_analysis u src defs refs]> us) x)
    as [-> ->].
  destruct (decide (x = id)) as [->|Hne].
  - by rewrite lookup_insert_eq, Hu.
  - by rewrite lookup_insert_ne.
Qed.

Lemma replan_is_checked us id u src defs refs :
  exists us', replan us id u src defs refs = cycle_check us'.
Proof. eexists. apply replan_unfold. Qed.

(** The tiers of a plan: a tier holds the units not yet scheduled none of
    whose upstream units is still to be scheduled. *)
Lemma tiers_split us fuel rem before tier after :
  tiers us fuel rem = before ++ tier :: after ->
  forall a,
    a ∈ tier <->
    a ∈ rem /\ (a ∉ concat before) /\
    forall v, v ∈ rem -> v ∉ concat before -> a ∉ descendants us v.
Proof.
  induction fuel as [|fuel IH] in rem, before |- *; simpl.
  { by destruct before. }
  destruct (filter (ready us rem) rem) as [|t l] eqn:Htier.
  { by destruct before. }
  assert (forall a, a ∈ merge_sort (by_position us) (t :: l)
                    <-> a ∈ rem /\ ready us rem a) as Hfirst.
  { intros a. rewrite merge_sort_Permutation, <- Htier, list_elem_of_filter.
    tauto. }
  destruct before as [|b before]; simpl; intros [= Hb Hrest] a.
  - subst tier. rewrite Hfirst. unfold ready. rewrite Forall_forall.
    split.
    + intros [Ha Hr]. repeat split; [done|apply not_elem_of_nil|]. auto.
    + intros (Ha & _ & Hr). split; [done|]. intros v Hv. apply Hr; [done|].
      apply not_elem_of_nil.
  - subst b. rewrite (IH _ _ Hrest a), list_elem_of_filter, elem_of_app.
    split.
    + intros ([Hnr Ha] & Hnb & Hr). repeat split; try done.
      * intros [Hin|Hin]; [|done]. apply Hfirst in Hin. tauto.
      * intros v Hv Hnv. apply Hr.
        -- apply list_elem_of_filter. split; [|done].
           intros Hrv. apply Hnv, elem_of_app. left. by apply Hfirst.
        -- intros Hin. apply Hnv, elem_of_app. by right.
    + intros (Ha & Hnb & Hr). repeat split; try tauto.
      * intros Hra. apply Hnb. left. by apply Hfirst.
      * intros v [Hnr Hv]%list_elem_of_filter Hnv. apply Hr; [done|].
        intros [Hin|Hin]%elem_of_app; [|done]. apply Hfirst in Hin. tauto.
Qed.

Lemma new_events_pass graph order nb0 nb :
  events nb = events nb0 ->
  new_events nb0 (execute_all execute graph order ∅ nb)
  = pass_events execute graph order ∅ nb.
Proof.
  intros Hev. unfold new_events.
  by rewrite execute_all_events, Hev, drop_app_length.
Qed.


Lemma apply_edit_analysed nb id u src defs refs :
  units nb !! id = Some u -> analyze src = Some (defs, refs) ->
  apply_edit analyze execute nb id src
  = execute_all execute (replan (units nb) id u src defs refs)
      (schedule (replan (units nb) id u src defs refs)
         (affected (replan (units nb) id u src defs refs) id))
      ∅
      {| units := replan (units nb) id u src defs refs;
         env := env nb; events := events nb |}.
Proof. intros Hu Ha. unfold apply_edit. by rewrite Hu, Ha. Qed.

Lemma plan_sound us id :
  StronglySorted (fun a b => a ∉ descendants (cycle_check us) b)
    (schedule (cycle_check us) (affected (cycle_check us) id)) /\
  NoDup (schedule (cycle_check us) (affected (cycle_check us) id)).
Proof.
  split; [apply tiers_topological|].
  rewrite schedule_permutation. apply affected_NoDup.
Qed.

(** C3.  An edit whose source does not analyse marks the unit [error] with
    [SyntaxError] and touches nothing else: every unit keeps its recorded
    definitions and references (the edited one included), so every unit has
    the children and descendants it had; no unit starts; the bindings and
    every unit's output are as before. *)
Theorem syntax_error_leaves_graph_and_values nb id u src :
  units nb !! id = Some u ->
  analyze src = None ->
  units (apply_edit analyze execute nb id src)
    = <[id := with_status u error (Some SyntaxError)]> (units nb) /\
  status_of (apply_edit analyze execute nb id src) id = Some error /\
  error_of (apply_edit analyze execute nb id src) id = Some (Some SyntaxError) /\
  same_graph (units nb) (units (apply_edit analyze execute nb id src)) /\
  (forall x,
     children (units (apply_edit analyze execute nb id src)) x
       = children (units nb) x /\
     descendants (units (apply_edit analyze execute nb id src)) x
       = descendants (units nb) x) /\
  started (new_events nb (apply_edit analyze execute nb id src)) = [] /\
  new_events nb (apply_edit analyze execute nb id src)
    = [(id, error, Some SyntaxError)] /\
  env (apply_edit analyze execute nb id src) = env nb /\
  (forall x, output_of (apply_edit analyze execute nb id src) x = output_of nb x).
Proof.
  intros Hu Ha. unfold apply_edit. rewrite Hu, Ha.
  assert (same_graph (units nb)
            (<[id := with_status u error (Some SyntaxError)]> (units nb)))
    as Hsame by by apply (same_graph_insert _ _ u).
  unfold status_of, error_of, output_of, new_events. simpl.
  rewrite lookup_insert_eq, drop_app_length.
  do 4 (split; [done|]). split; [|do 3 (split; [done|])].
  - intros x. split; symmetry.
    + by apply same_graph_children.
    + by apply same_graph_descendants.
  - intros x. destruct (decide (x = id)) as [->|Hne].
    + by rewrite lookup_insert_eq, Hu.
    + by rewrite lookup_insert_ne.
Qed.

(** C2.  When a unit's body raises during the pass of an edit, that unit
    ends the pass in [error] with [RuntimeError]; every strict descendant
    of it ends the pass [stale], with the output it had before the edit,
    and does not start in that pass.  A binding of the Runtime Environment
    changes during a pass only when a unit that defines the name completes:
    a run that raised publishes nothing for a later unit to read. *)
Theorem runtime_fault_is_contained nb id u src defs refs w :
  units nb !! id = Some u ->
  analyze src = Some (defs, refs) ->
  (w, error, Some RuntimeError)
    ∈ new_events nb (apply_edit analyze execute nb id src) ->
  status_of (apply_edit analyze execute nb id src) w = Some error /\
  error_of (apply_edit analyze execute nb id src) w = Some (Some RuntimeError) /\
  (forall d,
     d ∈ descendants (units (apply_edit analyze execute nb id src)) w ->
     d ≠ w ->
     status_of (apply_edit analyze execute nb id src) d = Some stale /\
     output_of (apply_edit analyze execute nb id src) d = output_of nb d /\
     d ∉ started (new_events nb (apply_edit analyze execute nb id src))) /\
  (forall n,
     (forall y uy,
        (y, idle, None) ∈ new_events nb (apply_edit analyze execute nb id src) ->
        units (apply_edit analyze execute nb id src) !! y = Some uy ->
        n ∉ defined uy) ->
     env (apply_edit analyze execute nb id src) !! n = env nb !! n).
Proof.
  intros Hu Ha. rewrite (apply_edit_analysed _ _ _ _ _ _ Hu Ha).
  set (graph := replan (units nb) id u src defs refs).
  set (start := {| units := graph; env := env nb; events := events nb |}).
  rewrite (new_events_pass graph _ nb start) by done.
  destruct (replan_is_checked (units nb) id u src defs refs) as [us' Hg].
  fold graph in Hg.
  assert (same_graph graph
            (units (execute_all execute graph
                      (schedule graph (affected graph id)) ∅ start)))
    as Hsame by apply (pass_same_graph execute graph _ ∅ start).
  intros Hfault.
  destruct (pass_fault_contained execute graph
              (schedule graph (affected graph id)) ∅ start w)
    as (Hs & He & Hdesc); try done.
  { rewrite Hg. apply plan_sound. }
  { rewrite Hg. apply plan_sound. }
  repeat split; try done.
  - apply Hdesc; [|done]. by rewrite (same_graph_descendants _ _ w Hsame).
  - destruct (Hdesc d) as (_ & -> & _); [|done|].
    { by rewrite (same_graph_descendants _ _ w Hsame). }
    unfold output_of, start, graph. simpl.
    by destruct (replan_kept (units nb) id u src defs refs d Hu) as [-> _].
  - apply Hdesc; [|done]. by rewrite (same_graph_descendants _ _ w Hsame).
  - intros n Hn. rewrite (pass_env execute graph _ ∅ start n); [done|].
    intros y uy Hev Hy. simpl in Hy.
    pose proof (Hsame y) as Hy'. rewrite Hy in Hy'.
    destruct (units (execute_all execute graph
                       (schedule graph (affected graph id)) ∅ start) !! y)
      as [uy'|] eqn:Hfin; [|done].
    destruct Hy' as [-> _]. by apply (Hn y uy').
Qed.

(** The plan of an edit and the pass that follows it. *)
Lemma plan_of_an_edit nb id u src defs refs :
  units nb !! id = Some u ->
  analyze src = Some (defs, refs) ->
  (forall x, position_of (replan (units nb) id u src defs refs) x
             = position_of (units nb) x) /\
  concat (tiers (replan (units nb) id u src defs refs)
            (length (affected (replan (units nb) id u src defs refs) id))
            (affected (replan (units nb) id u src defs refs) id))
    ≡ₚ affected (replan (units nb) id u src defs refs) id /\
  StronglySorted
    (fun a b => a ∉ descendants (replan (units nb) id u src defs refs) b)
    (concat (tiers (replan (units nb) id u src defs refs)
               (length (affected (replan (units nb) id u src defs refs) id))
               (affected (replan (units nb) id u src defs refs) id))) /\
  (forall before tier after,
     tiers (replan (units nb) id u src defs refs)
       (length (affected (replan (units nb) id u src defs refs) id))
       (affected (replan (units nb) id u src defs refs) id)
     = before ++ tier :: after ->
     StronglySorted (by_position (replan (units nb) id u src defs refs)) tier /\
     (forall a b, a ∈ tier -> b ∈ tier ->
        a ∉ descendants (replan (units nb) id u src defs refs) b) /\
     (forall a,
        a ∈ tier <->
        a ∈ affected (replan (units nb) id u src defs refs) id /\
        (a ∉ concat before) /\
        forall v,
          v ∈ affected (replan (units nb) id u src defs refs) id ->
          v ∉ concat before ->
          a ∉ descendants (replan (units nb) id u src defs refs) v)) /\
  started (new_events nb (apply_edit analyze execute nb id src))
    `sublist_of`
    concat (tiers (replan (units nb) id u src defs refs)
              (length (affected (replan (units nb) id u src defs refs) id))
              (affected (replan (units nb) id u src defs refs) id)) /\
  ((forall x, (x, error, Some RuntimeError)
                ∉ new_events nb (apply_edit analyze execute nb id src)) ->
   started (new_events nb (apply_edit analyze execute nb id src))
   = concat (tiers (replan (units nb) id u src defs refs)
               (length (affected (replan (units nb) id u src defs refs) id))
               (affected (replan (units nb) id u src defs refs) id))).
Proof.
  intros Hu Ha. rewrite (apply_edit_analysed _ _ _ _ _ _ Hu Ha).
  set (graph := replan (units nb) id u src defs refs).
  set (start := {| units := graph; env := env nb; events := events nb |}).
  rewrite (new_events_pass graph _ nb start) by done.
  destruct (replan_is_checked (units nb) id u src defs refs) as [us' Hg].
  fold graph in Hg. fold (schedule graph (affected graph id)).
  assert (schedule graph (affected graph id) ≡ₚ affected graph id) as Hperm
    by (rewrite Hg; apply schedule_permutation).
  split.
  { intros x. unfold position_of.
    destruct (replan_kept (units nb) id u src defs refs x Hu) as [_ Hpos].
    fold graph in Hpos.
    destruct (graph !! x), (units nb !! x); simpl in Hpos; congruence. }
  split; [done|]. split; [apply tiers_topological|]. split.
  { intros before tier after Hsplit.
    pose proof (tiers_split _ _ _ _ _ _ Hsplit) as Htier.
    split; [|split; [|done]].
    - assert (tier ∈ tiers graph (length (affected graph id))
                         (affected graph id)) as Hin
        by (rewrite Hsplit; set_solver).
      by apply tiers_tier in Hin as [? _].
    - intros a b Ha' Hb.
      apply Htier in Ha' as (_ & _ & Hr). apply Htier in Hb as (Hb1 & Hb2 & _).
      by apply Hr. }
  split; [apply started_sublist|].
  intros Hok. apply started_all; [|done].
  intros x Hx. simpl. rewrite Hperm in Hx. by apply affected_dom in Hx.
Qed.

End EditFacts.

(** * The scheduler at work on small notebooks *)

Section SchedulerRuns.
Import Reactive.

(** C6.  The pass of an edit is planned in tiers.  Every affected unit is
    scheduled exactly once, and no unit is scheduled before a unit it
    descends from (a strict topological order).  A tier holds the affected
    units not yet scheduled none of whose upstream units is still to be
    scheduled; two units of one tier never depend on each other, and a tier
    is scheduled in ascending order of the positions the units had before
    the edit.  Units start in the order of
    the plan: the units that start are a subsequence of it, and all of it
    when no unit raises.  In particular, with units at positions 1, 2, 3
    (identifiers 10, 30, 20) of which the second and third depend on the
    first only, every edit that sets the first to a constant re-runs the
    first, then the second, then the third, and does so again when the
    same edit is repeated. *)
Theorem pass_runs_tiers_in_position_order :
  (forall (Source Value : Type) analyze execute (nb : Notebook Source Value)
          id u src defs refs,
      units nb !! id = Some u ->
      analyze src = Some (defs, refs) ->
      let graph := replan (units nb) id u src defs refs in
      let plan := tiers graph (length (affected graph id)) (affected graph id) in
      let ran := started (new_events nb (apply_edit analyze execute nb id src)) in
      (forall x, position_of graph x = position_of (units nb) x) /\
      concat plan ≡ₚ affected graph id /\
      StronglySorted (fun a b => a ∉ descendants graph b) (concat plan) /\
      (forall before tier after,
         plan = before ++ tier :: after ->
         StronglySorted (by_position graph) tier /\
         (forall a b, a ∈ tier -> b ∈ tier -> a ∉ descendants graph b) /\
         (forall a,
            a ∈ tier <->
            a ∈ affected graph id /\ (a ∉ concat before) /\
            forall v, v ∈ affected graph id -> v ∉ concat before ->
                      a ∉ descendants graph v)) /\
      ran `sublist_of` concat plan /\
      ((forall x, (x, error, Some RuntimeError)
                    ∉ new_events nb (apply_edit analyze execute nb id src)) ->
       ran = concat plan))
  /\
  (forall z,
      started (new_events fan (fan_edit z fan)) = [10; 30; 20] /\
      started (new_events (fan_edit z fan) (fan_edit z (fan_edit z fan)))
        = [10; 30; 20]).
Proof.
  split.
  - intros Source Value analyze execute nb id u src defs refs Hu Ha.
    apply (plan_of_an_edit analyze execute nb id u src defs refs Hu Ha).
  - intros z. by vm_compute.
Qed.

(** Units that do not depend on each other but sit in different tiers run
    in tier order, whatever their positions: the unit at position 2 runs
    before the unit at position 1, which waits for the unit at position 3. *)
Lemma independent_units_of_different_tiers :
  started (new_events staggered (edit staggered 5 (Assign "r" (Const 2))))
    = [5; 7; 8; 6] /\
  position_of (units staggered) 6 = 1 /\
  position_of (units staggered) 7 = 2 /\
  6 ∉ descendants (units staggered) 7 /\
  7 ∉ descendants (units staggered) 6.
Proof. by vm_compute. Qed.

Lemma pass_runs_tiers_in_position_order_witness :
  units fan !! 10 = Some (new_unit 1 (Assign "a" (Const 1))) /\
  cell_analyze (Assign "a" (Const 7)) = Some (["a"], []) /\
  concat (tiers (replan (units fan) 10 (new_unit 1 (Assign "a" (Const 1)))
                   (Assign "a" (Const 7)) ["a"] [])
            (length (affected
                       (replan (units fan) 10 (new_unit 1 (Assign "a" (Const 1)))
                          (Assign "a" (Const 7)) ["a"] []) 10))
            (affected
               (replan (units fan) 10 (new_unit 1 (Assign "a" (Const 1)))
                  (Assign "a" (Const 7)) ["a"] []) 10))
    ≡ₚ affected
         (replan (units fan) 10 (new_unit 1 (Assign "a" (Const 1)))
            (Assign "a" (Const 7)) ["a"] []) 10 /\
  started (new_events fan (fan_edit 7 fan))
    `sublist_of`
    concat (tiers (replan (units fan) 10 (new_unit 1 (Assign "a" (Const 1)))
                     (Assign "a" (Const 7)) ["a"] [])
              (length (affected
                         (replan (units fan) 10
                            (new_unit 1 (Assign "a" (Const 1)))
                            (Assign "a" (Const 7)) ["a"] []) 10))
              (affected
                 (replan (units fan) 10 (new_unit 1 (Assign "a" (Const 1)))
                    (Assign "a" (Const 7)) ["a"] []) 10)).
Proof.
  assert (units fan !! 10 = Some (new_unit 1 (Assign "a" (Const 1)))) as Hu
    by by vm_compute.
  assert (cell_analyze (Assign "a" (Const 7)) = Some (["a"], [])) as Ha
    by reflexivity.
  split; [exact Hu|]. split; [exact Ha|].
  destruct (proj1 pass_runs_tiers_in_position_order Cell Z cell_analyze
              cell_execute fan 10 (new_unit 1 (Assign "a" (Const 1)))
              (Assign "a" (Const 7)) ["a"] [] Hu Ha)
    as (_ & Hperm & _ & _ & Hsub & _).
  split; [exact Hperm|exact Hsub].
Defined.

Lemma syntax_error_leaves_graph_and_values_witness :
  units chain_ran !! 20
    = Some {| position := 2; source := Assign "y" (Div (Const 10) (Ref "x"));
              defined := ["y"]; referenced := ["x"]; status := idle;
              output := Some 2%Z; last_error := None |} /\
  cell_analyze (Unparsable "y = = 1") = None /\
  status_of (edit chain_ran 20 (Unparsable "y = = 1")) 20 = Some error /\
  error_of (edit chain_ran 20 (Unparsable "y = = 1")) 20
    = Some (Some SyntaxError) /\
  same_graph (units chain_ran)
    (units (edit chain_ran 20 (Unparsable "y = = 1"))) /\
  new_events chain_ran (edit chain_ran 20 (Unparsable "y = = 1"))
    = [(20, error, Some SyntaxError)] /\
  env (edit chain_ran 20 (Unparsable "y = = 1")) = env chain_ran.
Proof.
  assert (units chain_ran !! 20
          = Some {| position := 2;
                    source := Assign "y" (Div (Const 10) (Ref "x"));
                    defined := ["y"]; referenced := ["x"]; status := idle;
                    output := Some 2%Z; last_error := None |}) as Hu
    by by vm_compute.
  assert (cell_analyze (Unparsable "y = = 1") = None) as Ha by reflexivity.
  split; [exact Hu|]. split; [exact Ha|].
  destruct (syntax_error_leaves_graph_and_values cell_analyze cell_execute
              chain_ran 20 _ (Unparsable "y = = 1") Hu Ha)
    as (_ & Hs & He & Hg & _ & _ & Hev & Henv & _).
  split; [exact Hs|]. split; [exact He|]. split; [exact Hg|].
  split; [exact Hev|exact Henv].
Defined.

Lemma runtime_fault_is_contained_witness :
  units chain_ran !! 10
    = Some {| position := 1; source := Assign "x" (Const 5);
              defined := ["x"]; referenced := []; status := idle;
              output := Some 5%Z; last_error := None |} /\
  cell_analyze (Assign "x" (Const 0)) = Some (["x"], []) /\
  (20, error, Some RuntimeError) ∈ new_events chain_ran chain_zero /\
  status_of chain_zero 20 = Some error /\
  error_of chain_zero 20 = Some (Some RuntimeError) /\
  status_of chain_zero 30 = Some stale /\
  output_of chain_zero 30 = output_of chain_ran 30 /\
  30 ∉ started (new_events chain_ran chain_zero).
Proof.
  assert (units chain_ran !! 10
          = Some {| position := 1; source := Assign "x" (Const 5);
                    defined := ["x"]; referenced := []; status := idle;
                    output := Some 5%Z; last_error := None |}) as Hu
    by by vm_compute.
  assert (cell_analyze (Assign "x" (Const 0)) = Some (["x"], [])) as Ha
    by reflexivity.
  assert ((20, error, Some RuntimeError) ∈ new_events chain_ran chain_zero)
    as Hfault.
  { apply list_elem_of_In. vm_compute. do 3 right. by left. }
  split; [exact Hu|]. split; [exact Ha|]. split; [exact Hfault|].
  destruct (runtime_fault_is_contained cell_analyze cell_execute chain_ran 10
              _ (Assign "x" (Const 0)) ["x"] [] 20 Hu Ha Hfault)
    as (Hs & He & Hdesc & _).
  destruct (Hdesc 30) as (Hd1 & Hd2 & Hd3); [by vm_compute|discriminate|].
  split; [exact Hs|]. split; [exact He|]. split; [exact Hd1|].
  split; [exact Hd2|exact Hd3].
Defined.

End SchedulerRuns.
(** * The configuration endpoint: rejected and failing runs *)

Section ConfigEndpointFailures.
Import ConfigEndpoint.
Context {Store Lsp : Type}.
Variable parse_request : string -> Result SaveUserConfigurationRequest.
Variable save_config_impl : PyVal -> Store -> Result (PyVal * Store).
Variable start_lsp_impl : Lsp -> Result Lsp.
Variable no_session : Exn.

Abbreviation handler :=
  (save_user_config parse_request save_config_impl start_lsp_impl no_session).
Abbreviation trace :=
  (new_effects parse_request save_config_impl start_lsp_impl no_session).

(** The calls made up to and including the start of the language server. *)
Abbreviation calls_to_start body copilot :=
  (SaveConfig (config body)
   :: (if truthy copilot
       then [LogDebug "Starting copilot server"; StartLspServer] else [])).

(** The session the request names, when it is live. *)
Abbreviation live_session request w :=
  (session_header request ≫= fun sid => sessions w !! sid ≫= fun _ => Some sid).

Ltac step_handler :=
  cbv beta iota zeta delta
    [save_user_config requires save_config require_current_session
     put_control_request start_lsp_server debug emit bind lift ret raise].

(** Two equations on the same call are merged. *)
Ltac agree :=
  repeat match goal with
         | H1 : ?x = _, H2 : ?x = _ |- _ => rewrite H1 in H2; simplify_eq
         end.

Ltac failing_step H Hl Hnone :=
  destruct H
    as [[? ?]
       |[_ [?|(? & ? & [?|(? & ? & ? & [?|(? & ? & [[? ?]
                                                   |(Hl & ? & Hnone)])])])]]];
  simplify_eq; agree; try done; try congruence.

(** The run got past reading the toggle. *)
Ltac late_step body cfg st copilot :=
  right; split; [done|]; right; exists body; split; [done|];
  right; exists cfg, st; split; [done|];
  right; exists copilot; split; [done|].

Ltac not_among_calls :=
  simpl; rewrite ?elem_of_cons, elem_of_nil;
  let H := fresh in
  intros H; repeat (destruct H as [H|H]; try discriminate); done.

(** The handler, outcome by outcome. *)
Lemma save_user_config_outcomes request (w : World Store Lsp) :
  handler request w =
  if bool_decide ("edit" ∈ auth_scopes request) then
    match parse_request (payload request) with
    | Raise e => (Raise e, w)
    | Ok body =>
        match save_config_impl (config body) (config_manager w) with
        | Raise e =>
            (Raise e,
             {| config_manager := config_manager w; lsp_server := lsp_server w;
                sessions := sessions w;
                effects := effects w ++ [SaveConfig (config body)] |})
        | Ok (cfg, st) =>
            match copilot_toggle cfg with
            | Raise e =>
                (Raise e,
                 {| config_manager := st; lsp_server := lsp_server w;
                    sessions := sessions w;
                    effects := effects w ++ [SaveConfig (config body)] |})
            | Ok copilot =>
                match (if truthy copilot then start_lsp_impl (lsp_server w)
                       else Ok (lsp_server w)) with
                | Raise e =>
                    (Raise e,
                     {| config_manager := st; lsp_server := lsp_server w;
                        sessions := sessions w;
                        effects := effects w ++ calls_to_start body copilot |})
                | Ok l =>
                    match live_session request w with
                    | None =>
                        (Raise no_session,
                         {| config_manager := st; lsp_server := l;
                            sessions := sessions w;
                            effects := effects w ++ calls_to_start body copilot |})
                    | Some sid =>
                        (Ok SuccessResponse,
                         {| config_manager := st; lsp_server := l;
                            sessions :=
                              alter
                                (fun q => q ++ [SetUserConfigRequest (config body)])
                                sid (sessions w);
                            effects :=
                              effects w ++ success_trace body copilot sid |})
                    end
                end
            end
        end
    end
  else (Raise (HTTPException 403), w).
Proof.
  unfold success_trace. step_handler.
  case_bool_decide as Hscope; [|done]. simpl.
  destruct (parse_request (payload request)) as [body|e]; [|done]. simpl.
  destruct (save_config_impl (config body) (config_manager w))
    as [[cfg st]|e]; [|done]. simpl.
  destruct (copilot_toggle cfg) as [copilot|e]; [|done]. simpl.
  destruct (truthy copilot); simpl.
  - destruct (start_lsp_impl (lsp_server w)) as [l|e]; simpl;
      rewrite <- ?app_assoc; simpl; [|done].
    destruct (session_header request) as [sid|]; simpl; [|done].
    destruct (sessions w !! sid); simpl; rewrite <- ?app_assoc; done.
  - destruct (session_header request) as [sid|]; simpl; [|done].
    destruct (sessions w !! sid); simpl; rewrite <- ?app_assoc; done.
Qed.

(** The calls of a run, outcome by outcome. *)
Lemma new_effects_outcomes request (w : World Store Lsp) :
  trace request w =
  if bool_decide ("edit" ∈ auth_scopes request) then
    match parse_request (payload request) with
    | Raise _ => []
    | Ok body =>
        SaveConfig (config body)
        :: match save_config_impl (config body) (config_manager w) with
           | Raise _ => []
           | Ok (cfg, _) =>
               match copilot_toggle cfg with
               | Raise _ => []
               | Ok copilot =>
                   (if truthy copilot
                    then [LogDebug "Starting copilot server"; StartLspServer]
                    else [])
                   ++ match (if truthy copilot
                             then start_lsp_impl (lsp_server w)
                             else Ok (lsp_server w)) with
                      | Raise _ => []
                      | Ok _ =>
                          match live_session request w with
                          | None => []
                          | Some sid =>
                              [PutControlRequest sid
                                 (SetUserConfigRequest (config body))]
                          end
                      end
               end
           end
    end
  else [].
Proof.
  unfold new_effects, success_trace. rewrite save_user_config_outcomes.
  case_bool_decide; [|by rewrite drop_all].
  destruct (parse_request (payload request)) as [body|e];
    [|by rewrite drop_all].
  destruct (save_config_impl (config body) (config_manager w))
    as [[cfg st]|e]; [|by simpl; rewrite drop_app_length].
  destruct (copilot_toggle cfg) as [copilot|e];
    [|by simpl; rewrite drop_app_length].
  destruct (if truthy copilot then start_lsp_impl (lsp_server w)
            else Ok (lsp_server w)) as [l|e]; simpl.
  - destruct (live_session request w) as [sid|]; simpl;
      rewrite drop_app_length; [done|by rewrite app_nil_r].
  - by rewrite drop_app_length, app_nil_r.
Qed.

Lemma live_session_None request (w : World Store Lsp) :
  live_session request w = None <->
  forall sid, session_header request = Some sid -> sessions w !! sid = None.
Proof.
  destruct (session_header request) as [s|]; simpl.
  - destruct (sessions w !! s) as [q|] eqn:Hq; simpl.
    + split; [done|]. intros H. specialize (H s eq_refl). congruence.
    + split; [|done]. by intros _ sid [= <-].
  - split; [|done]. by intros _ sid.
Qed.

(** X1.  The handler leaves the world untouched (no call to any
    collaborator, nothing on any queue) in exactly two cases.  A request
    without the edit scope is answered 403 before its body is even parsed;
    a request with the scope whose body does not parse gets the parser's
    exception, unchanged.  In every other run the world has changed. *)
Theorem rejected_before_saving_touches_nothing request (w : World Store Lsp) :
  ("edit" ∉ auth_scopes request ->
   handler request w = (Raise (HTTPException 403), w)) /\
  (forall e,
     "edit" ∈ auth_scopes request ->
     parse_request (payload request) = Raise e ->
     handler request w = (Raise e, w)) /\
  ((handler request w).2 = w ->
   "edit" ∉ auth_scopes request \/
   exists e, parse_request (payload request) = Raise e).
Proof.
  split; [|split].
  - intros Hscope. rewrite save_user_config_outcomes.
    by rewrite bool_decide_eq_false_2.
  - intros e Hscope Hparse. rewrite save_user_config_outcomes.
    by rewrite bool_decide_eq_true_2, Hparse.
  - intros Hsame.
    assert (trace request w = []) as Hnone.
    { unfold new_effects. rewrite Hsame. apply drop_all. }
    rewrite new_effects_outcomes in Hnone.
    case_bool_decide as Hscope; [|by left].
    destruct (parse_request (payload request)) as [body|e]; [done|eauto].
Qed.

(** X2.  Nothing is rolled back.  Once [save_config] has succeeded, a run
    that then raises (the saved configuration has no
    [completion]/[copilot] entry, the language server does not start, the
    session is not live) leaves the configuration manager in the state
    [save_config] produced, while no control request has been enqueued: the
    stored configuration and the kernel's view differ from then on. *)
Theorem failure_after_save_is_not_rolled_back
    request (w : World Store Lsp) body cfg st e :
  "edit" ∈ auth_scopes request ->
  parse_request (payload request) = Ok body ->
  save_config_impl (config body) (config_manager w) = Ok (cfg, st) ->
  (handler request w).1 = Raise e ->
  config_manager (handler request w).2 = st /\
  sessions (handler request w).2 = sessions w /\
  (forall s c, PutControlRequest s c ∉ trace request w) /\
  exists rest, trace request w = SaveConfig (config body) :: rest.
Proof.
  intros Hscope Hparse Hsave.
  rewrite new_effects_outcomes, save_user_config_outcomes.
  rewrite bool_decide_eq_true_2, Hparse, Hsave by done.
  destruct (copilot_toggle cfg) as [copilot|e1]; simpl.
  2:{ intros _. split; [done|]. split; [done|]. split; [|by eauto].
      intros s c. by intros ?%list_elem_of_singleton. }
  destruct (if truthy copilot then start_lsp_impl (lsp_server w)
            else Ok (lsp_server w)) as [l|e1]; simpl.
  2:{ intros _. split; [done|]. split; [done|]. split; [|by eauto].
      intros s c. rewrite app_nil_r.
      destruct (truthy copilot); not_among_calls. }
  destruct (live_session request w) as [sid|]; simpl; [done|].
  intros _. split; [done|]. split; [done|]. split; [|by eauto].
  intros s c. rewrite app_nil_r.
  destruct (truthy copilot); not_among_calls.
Qed.

(** X3.  In every run, failing or not, the calls the handler makes are an
    initial part of the calls of a successful run: [save_config] first, on
    the configuration of the parsed body, then at most one start of the
    language server, then at most one [put_control_request].  The language
    server is started only after [save_config] has returned a configuration
    whose copilot toggle is truthy. *)
Theorem calls_follow_the_success_trace request (w : World Store Lsp) :
  exists body copilot sid,
    trace request w `prefix_of` success_trace body copilot sid /\
    (trace request w ≠ [] -> parse_request (payload request) = Ok body) /\
    (StartLspServer ∈ trace request w ->
     exists cfg st,
       save_config_impl (config body) (config_manager w) = Ok (cfg, st) /\
       copilot_toggle cfg = Ok copilot /\ truthy copilot = true).
Proof.
  rewrite new_effects_outcomes. unfold success_trace.
  case_bool_decide as Hscope.
  2:{ exists {| config := PyNone |}, PyNone, EmptyString.
      split; [apply prefix_nil|]. split; [done|]. by intros ?%elem_of_nil. }
  destruct (parse_request (payload request)) as [body|e] eqn:Hparse.
  2:{ exists {| config := PyNone |}, PyNone, EmptyString.
      split; [apply prefix_nil|]. split; [done|]. by intros ?%elem_of_nil. }
  destruct (save_config_impl (config body) (config_manager w))
    as [[cfg st]|e] eqn:Hsave.
  2:{ exists body, PyNone, EmptyString.
      split; [by apply prefix_cons, prefix_nil|]. split; [done|].
      by intros ?%list_elem_of_singleton. }
  destruct (copilot_toggle cfg) as [copilot|e] eqn:Htoggle.
  2:{ exists body, PyNone, EmptyString.
      split; [by apply prefix_cons, prefix_nil|]. split; [done|].
      by intros ?%list_elem_of_singleton. }
  destruct (truthy copilot) eqn:Htruthy.
  - destruct (start_lsp_impl (lsp_server w)) as [l|e].
    + destruct (live_session request w) as [sid|].
      * exists body, copilot, sid. rewrite Htruthy.
        split; [reflexivity|]. split; [done|]. intros _. by exists cfg, st.
      * exists body, copilot, EmptyString. rewrite Htruthy.
        split; [by apply prefix_cons, prefix_app, prefix_nil|].
        split; [done|]. intros _. by exists cfg, st.
    + exists body, copilot, EmptyString. rewrite Htruthy.
      split; [by apply prefix_cons, prefix_app, prefix_nil|].
      split; [done|]. intros _. by exists cfg, st.
  - destruct (live_session request w) as [sid|]; simpl.
    + exists body, copilot, sid. rewrite Htruthy.
      split; [reflexivity|]. split; [done|].
      not_among_calls.
    + exists body, copilot, EmptyString. rewrite Htruthy.
      split; [by apply prefix_cons, prefix_nil|]. split; [done|].
      by intros ?%list_elem_of_singleton.
Qed.

(** X4.  The handler catches nothing and translates nothing: every
    exception leaves it as it was raised.  A run raises [e] if and only
    if [e] is the 403 of a missing edit scope or, with the scope, the
    exception of the first step that fails: parsing the body,
    [save_config], reading
    [completion]/[copilot] off the saved configuration, starting the
    language server (reached only when the toggle is truthy), or finding
    the session. *)
Theorem exceptions_come_from_the_failing_step request (w : World Store Lsp) e :
  (handler request w).1 = Raise e <->
  (("edit" ∉ auth_scopes request) /\ e = HTTPException 403) \/
  (("edit" ∈ auth_scopes request) /\
   (parse_request (payload request) = Raise e \/
    exists body,
      parse_request (payload request) = Ok body /\
      (save_config_impl (config body) (config_manager w) = Raise e \/
       exists cfg st,
         save_config_impl (config body) (config_manager w) = Ok (cfg, st) /\
         (copilot_toggle cfg = Raise e \/
          exists copilot,
            copilot_toggle cfg = Ok copilot /\
            ((truthy copilot = true /\
              start_lsp_impl (lsp_server w) = Raise e) \/
             ((truthy copilot = true ->
               exists l, start_lsp_impl (lsp_server w) = Ok l) /\
              e = no_session /\
              forall sid, session_header request = Some sid ->
                          sessions w !! sid = None)))))).
Proof.
  rewrite save_user_config_outcomes.
  case_bool_decide as Hscope.
  2:{ simpl. split; [intros [= <-]; by left|]. by intros [[_ ->]|[? _]]. }
  destruct (parse_request (payload request)) as [body|e1] eqn:Hparse; simpl.
  2:{ split; [intros [= <-]; right; by eauto|].
      intros H. failing_step H Hl Hnone. }
  destruct (save_config_impl (config body) (config_manager w))
    as [[cfg st]|e1] eqn:Hsave; simpl.
  2:{ split; [intros [= <-]; right; by eauto 10|].
      intros H. failing_step H Hl Hnone. }
  destruct (copilot_toggle cfg) as [copilot|e1] eqn:Htoggle; simpl.
  2:{ split; [intros [= <-]; right; by eauto 10|].
      intros H. failing_step H Hl Hnone. }
  destruct (truthy copilot) eqn:Htruthy.
  - destruct (start_lsp_impl (lsp_server w)) as [l|e1] eqn:Hstart; simpl.
    + destruct (live_session request w) as [sid|] eqn:Hlive; simpl.
      * split; [done|]. intros H. failing_step H Hl Hnone.
        apply live_session_None in Hnone. congruence.
      * split; [|intros H; by failing_step H Hl Hnone].
        intros [= <-]. late_step body cfg st copilot. right.
        split; [intros _; by exists l|]. split; [done|].
        by apply live_session_None.
    + split.
      * intros [= <-]. late_step body cfg st copilot. by left.
      * intros H. failing_step H Hl Hnone.
        destruct Hl as [l Hl']; [assumption|]. congruence.
  - simpl. destruct (live_session request w) as [sid|] eqn:Hlive; simpl.
    + split; [done|]. intros H. failing_step H Hl Hnone.
      apply live_session_None in Hnone. congruence.
    + split; [|intros H; by failing_step H Hl Hnone].
      intros [= <-]. late_step body cfg st copilot. right.
      split; [by rewrite Htruthy|]. split; [done|].
      by apply live_session_None.
Qed.

(** X5.  What suffices for a request to be accepted, and what the world
    is afterwards: with the edit scope, a body that parses, a
    [save_config] that returns a configuration holding a
    [completion]/[copilot] entry, a language server that starts (asked
    only when that entry is truthy) and a live session, the handler
    returns [SuccessResponse]; the configuration manager is as
    [save_config] left it, the language server as the start left it, the
    session's queue one [SetUserConfigRequest] longer. *)
Theorem save_user_config_accepts
    request (w : World Store Lsp) body cfg st copilot l sid q :
  "edit" ∈ auth_scopes request ->
  parse_request (payload request) = Ok body ->
  save_config_impl (config body) (config_manager w) = Ok (cfg, st) ->
  copilot_toggle cfg = Ok copilot ->
  (if truthy copilot then start_lsp_impl (lsp_server w) = Ok l
   else l = lsp_server w) ->
  session_header request = Some sid ->
  sessions w !! sid = Some q ->
  handler request w
  = (Ok SuccessResponse,
     {| config_manager := st; lsp_server := l;
        sessions := <[sid := q ++ [SetUserConfigRequest (config body)]]>
                      (sessions w);
        effects := effects w ++ success_trace body copilot sid |}).
Proof.
  intros Hscope Hparse Hsave Htoggle Hstart Hsid Hq.
  rewrite save_user_config_outcomes.
  rewrite bool_decide_eq_true_2, Hparse, Hsave, Htoggle by done.
  assert ((if truthy copilot then start_lsp_impl (lsp_server w)
           else Ok (lsp_server w)) = Ok l) as ->.
  { destruct (truthy copilot); congruence. }
  rewrite Hsid. simpl. rewrite Hq. simpl.
  do 2 f_equal. apply map_eq. intros s.
  destruct (decide (s = sid)) as [->|Hne].
  - by rewrite lookup_alter_eq, lookup_insert_eq, Hq.
  - by rewrite lookup_alter_ne, lookup_insert_ne.
Qed.

(** X6.  Accepted requests are neither coalesced nor skipped.  When two
    requests in a row are accepted, [save_config] is called for each, the
    second on the state the first left; when both saved toggles are truthy
    the language server is started a second time, on the state the first
    start left (the handler does not ask whether it is running); and a
    session named by both receives both [SetUserConfigRequest]s, in the
    order of the requests. *)
Theorem consecutive_saves_are_not_coalesced
    r1 r2 (w w1 w2 : World Store Lsp) resp1 resp2 :
  handler r1 w = (Ok resp1, w1) ->
  handler r2 w1 = (Ok resp2, w2) ->
  exists b1 cfg1 c1 s1 b2 cfg2 c2 s2,
    parse_request (payload r1) = Ok b1 /\
    parse_request (payload r2) = Ok b2 /\
    save_config_impl (config b1) (config_manager w)
      = Ok (cfg1, config_manager w1) /\
    save_config_impl (config b2) (config_manager w1)
      = Ok (cfg2, config_manager w2) /\
    copilot_toggle cfg1 = Ok c1 /\
    copilot_toggle cfg2 = Ok c2 /\
    session_header r1 = Some s1 /\
    session_header r2 = Some s2 /\
    effects w2
      = effects w ++ success_trace b1 c1 s1 ++ success_trace b2 c2 s2 /\
    (truthy c1 = true -> truthy c2 = true ->
     exists l1,
       start_lsp_impl (lsp_server w) = Ok l1 /\
       start_lsp_impl l1 = Ok (lsp_server w2)) /\
    (s1 = s2 ->
     exists q,
       sessions w !! s1 = Some q /\
       sessions w2 !! s1
       = Some (q ++ [SetUserConfigRequest (config b1);
                     SetUserConfigRequest (config b2)])).
Proof.
  intros Hrun1 Hrun2.
  destruct (save_user_config_returns _ _ _ _ _ _ _ _ Hrun1)
    as (b1 & cfg1 & c1 & s1 & q1 & _ & Hparse1 & Hsave1 & Htoggle1
        & Hsid1 & Hq1 & Hlsp1 & Hsessions1 & Heffects1).
  destruct (save_user_config_returns _ _ _ _ _ _ _ _ Hrun2)
    as (b2 & cfg2 & c2 & s2 & q2 & _ & Hparse2 & Hsave2 & Htoggle2
        & Hsid2 & Hq2 & Hlsp2 & Hsessions2 & Heffects2).
  exists b1, cfg1, c1, s1, b2, cfg2, c2, s2.
  split; [exact Hparse1|]. split; [exact Hparse2|].
  split; [exact Hsave1|]. split; [exact Hsave2|].
  split; [exact Htoggle1|]. split; [exact Htoggle2|].
  split; [exact Hsid1|]. split; [exact Hsid2|].
  split; [by rewrite Heffects2, Heffects1, app_assoc|].
  split.
  - intros Ht1 Ht2. rewrite Ht1 in Hlsp1. rewrite Ht2 in Hlsp2.
    by exists (lsp_server w1).
  - intros <-. exists q1. split; [exact Hq1|].
    rewrite Hsessions1, lookup_alter_eq, Hq1 in Hq2. simpl in Hq2.
    injection Hq2 as <-.
    rewrite Hsessions2, Hsessions1, !lookup_alter_eq, Hq1. simpl.
    by rewrite <- app_assoc.
Qed.

(** X7.  A saved configuration without a copilot entry.  When the
    configuration that [save_config] returns is a dict with no
    [completion] section, or with a [completion] dict that has no
    [copilot] key, the handler raises [KeyError] on the missing key.  By
    then the configuration has been saved; the language server is not
    touched and no control request is enqueued. *)
Theorem missing_copilot_entry_is_a_key_error
    request (w : World Store Lsp) body items st :
  "edit" ∈ auth_scopes request ->
  parse_request (payload request) = Ok body ->
  save_config_impl (config body) (config_manager w) = Ok (PyDict items, st) ->
  dict_get items "completion" = None \/
  (exists section,
     dict_get items "completion" = Some (PyDict section) /\
     dict_get section "copilot" = None) ->
  handler request w
  = (Raise (KeyError (match dict_get items "completion" with
                      | None => "completion"
                      | Some _ => "copilot"
                      end)),
     {| config_manager := st; lsp_server := lsp_server w;
        sessions := sessions w;
        effects := effects w ++ [SaveConfig (config body)] |}).
Proof.
  intros Hscope Hparse Hsave Hmissing.
  rewrite save_user_config_outcomes.
  rewrite bool_decide_eq_true_2, Hparse, Hsave by done.
  unfold copilot_toggle, getitem.
  destruct Hmissing as [Hnone|(section & Hsection & Hnone)].
  - by rewrite Hnone.
  - by rewrite Hsection, Hnone.
Qed.

End ConfigEndpointFailures.

Section ConfigEndpointFailingRuns.
Import ConfigEndpoint ConfigRuns.

(** Copilot is switched on by a request whose session has gone: the file
    holds the new configuration, the running kernel was told nothing. *)
Lemma failure_after_save_is_not_rolled_back_witness :
  stale_session_run.1 = Raise (HTTPException 404) /\
  config_manager stale_session_run.2
    = {| on_disk := completion_config true; writable := true |} /\
  sessions stale_session_run.2
    = sessions (host_world (completion_config false) true false) /\
  (forall s c,
     PutControlRequest s c
       ∉ new_effects json_body file_save_config lsp_start (HTTPException 404)
           stale_session_request
           (host_world (completion_config false) true false)) /\
  exists rest,
    new_effects json_body file_save_config lsp_start (HTTPException 404)
      stale_session_request (host_world (completion_config false) true false)
    = SaveConfig (completion_config true) :: rest.
Proof.
  split; [by vm_compute|].
  apply (failure_after_save_is_not_rolled_back json_body file_save_config
           lsp_start (HTTPException 404) stale_session_request
           (host_world (completion_config false) true false)
           {| config := completion_config true |} (completion_config true)
           {| on_disk := completion_config true; writable := true |}
           (HTTPException 404)).
  - apply list_elem_of_here.
  - reflexivity.
  - reflexivity.
  - by vm_compute.
Defined.

(** The theme-only request meets every condition of acceptance. *)
Lemma save_user_config_accepts_witness :
  theme_run
  = (Ok SuccessResponse,
     {| config_manager := config_manager theme_run.2; lsp_server := true;
        sessions :=
          <["s1" := [ExecutionRequest "c1" "x = 1";
                     SetUserConfigRequest theme_config]]>
            (sessions (host_world (completion_config true) true false));
        effects :=
          success_trace {| config := theme_config |} (PyBool true) "s1" |}).
Proof.
  apply (save_user_config_accepts json_body file_save_config lsp_start
           (HTTPException 404) (editor_request "dark theme")
           (host_world (completion_config true) true false)
           {| config := theme_config |}
           (on_disk (config_manager theme_run.2)) (config_manager theme_run.2)
           (PyBool true) true "s1" [ExecutionRequest "c1" "x = 1"]).
  - apply list_elem_of_further, list_elem_of_here.
  - reflexivity.
  - by vm_compute.
  - by vm_compute.
  - reflexivity.
  - reflexivity.
  - by vm_compute.
Defined.

(** Copilot switched on twice in a row: two starts, two requests for the
    kernel. *)
Lemma consecutive_saves_are_not_coalesced_witness :
  exists b1 cfg1 c1 s1 b2 cfg2 c2 s2,
    json_body "copilot on" = Ok b1 /\
    json_body "copilot on" = Ok b2 /\
    file_save_config (config b1)
        (config_manager (host_world (completion_config false) true false))
      = Ok (cfg1, config_manager first_save_run.2) /\
    file_save_config (config b2) (config_manager first_save_run.2)
      = Ok (cfg2, config_manager second_save_run.2) /\
    copilot_toggle cfg1 = Ok c1 /\
    copilot_toggle cfg2 = Ok c2 /\
    session_header (editor_request "copilot on") = Some s1 /\
    session_header (editor_request "copilot on") = Some s2 /\
    effects second_save_run.2
      = effects (host_world (completion_config false) true false)
        ++ success_trace b1 c1 s1 ++ success_trace b2 c2 s2 /\
    (truthy c1 = true -> truthy c2 = true ->
     exists l1,
       lsp_start (lsp_server (host_world (completion_config false) true false))
         = Ok l1 /\
       lsp_start l1 = Ok (lsp_server second_save_run.2)) /\
    (s1 = s2 ->
     exists q,
       sessions (host_world (completion_config false) true false) !! s1
         = Some q /\
       sessions second_save_run.2 !! s1
       = Some (q ++ [SetUserConfigRequest (config b1);
                     SetUserConfigRequest (config b2)])).
Proof.
  apply (consecutive_saves_are_not_coalesced json_body file_save_config
           lsp_start (HTTPException 404)
           (editor_request "copilot on") (editor_request "copilot on")
           (host_world (completion_config false) true false)
           first_save_run.2 second_save_run.2
           SuccessResponse SuccessResponse).
  - by vm_compute.
  - by vm_compute.
Defined.

(** The theme is saved onto an empty configuration: the file now holds
    the theme, the request fails on the missing [completion] section. *)
Lemma missing_copilot_entry_is_a_key_error_witness :
  bare_store_run
  = (Raise (KeyError "completion"),
     {| config_manager := {| on_disk := theme_config; writable := true |};
        lsp_server := false;
        sessions := sessions (host_world (PyDict []) true false);
        effects := [SaveConfig theme_config] |}).
Proof.
  apply (missing_copilot_entry_is_a_key_error json_body file_save_config
           lsp_start (HTTPException 404) (editor_request "dark theme")
           (host_world (PyDict []) true false)
           {| config := theme_config |}
           [("display", PyDict [("theme", PyStr "dark")])]
           {| on_disk := theme_config; writable := true |}).
  - apply list_elem_of_further, list_elem_of_here.
  - reflexivity.
  - reflexivity.
  - by left.
Defined.

End ConfigEndpointFailingRuns.

(** * The export tests' waiting loop *)

Section ExportTestFacts.
Import ExportTests.



End ExportTestFacts.
